(** * daily-chess: the rules helpers of the debugging scripts

    A shallow embedding of the three functions of the repository that carry
    chess logic, and the properties checked against them:

    - [validate_en_passant]   (validate_en_passant.py)
    - [can_bishop_move_to]    (test/test_bishop_moves.py)
    - [analyze_pawn_moves]    (test/analyze_position.py)

    Modelling conventions.

    - A Python [str] is a list of characters.  Characters are the code points
      below 256 (Rocq's [ascii]); the state strings of the specification are
      ASCII.  The character tables ([isspace], [isdigit], [isupper],
      [islower], [int] of a one-character string) are Python's tables on that
      range.
    - Python integers are [Z].
    - A Python exception is a value [Raise e] of the type [result]; the
      order in which the source evaluates its sub-expressions decides which
      exception is seen first.
    - List subscription follows Python: a negative index counts from the
      end, an index out of range raises [IndexError].
    - The text the scripts print on the console is not part of any returned
      value and is left out. *)

From Stdlib Require Import List ZArith NArith Ascii String Bool Lia DecimalString.
Import ListNotations.

Open Scope Z_scope.

(** ** Python values *)

Definition pystr := list ascii.

(** A string literal of the source. *)
Definition str (s : string) : pystr := list_ascii_of_string s.
Arguments str : simpl never.

Definition ord (c : ascii) : Z := Z.of_N (N_of_ascii c).

Fixpoint pystr_eqb (a b : pystr) : bool :=
  match a, b with
  | [], [] => true
  | x :: a', y :: b' => Ascii.eqb x y && pystr_eqb a' b'
  | _, _ => false
  end.

(** [str(n)] for an integer. *)
Definition str_of_int (n : Z) : pystr :=
  str (NilZero.string_of_int (Z.to_int n)).

Inductive exn := IndexError | ValueError.

Inductive result (A : Type) : Type :=
| Ok (a : A)
| Raise (e : exn).
Arguments Ok {A} a.
Arguments Raise {A} e.

Definition bind {A B} (m : result A) (k : A -> result B) : result B :=
  match m with
  | Ok a => k a
  | Raise e => Raise e
  end.

Notation "x <- m ;; k" := (bind m (fun x => k))
  (at level 61, m at next level, right associativity).

(** [l[i]] *)
Definition getitem {A} (l : list A) (i : Z) : result A :=
  let n := Z.of_nat (List.length l) in
  let j := if i <? 0 then i + n else i in
  if (0 <=? j) && (j <? n) then
    match nth_error l (Z.to_nat j) with
    | Some x => Ok x
    | None => Raise IndexError
    end
  else Raise IndexError.

(** ** Character tables (code points 0..255) *)

Definition in_range (lo hi : Z) (c : ascii) : bool :=
  (lo <=? ord c) && (ord c <=? hi).

(** [c.isspace()]; also the separators of [str.split()] without argument. *)
Definition isspace (c : ascii) : bool :=
  in_range 9 13 c || in_range 28 32 c || (ord c =? 133) || (ord c =? 160).

(** [c.isdigit()]: the ten decimal digits and the superscripts 1, 2, 3. *)
Definition isdigit (c : ascii) : bool :=
  in_range 48 57 c || (ord c =? 178) || (ord c =? 179) || (ord c =? 185).

(** [c.isupper()] *)
Definition isupper (c : ascii) : bool :=
  in_range 65 90 c || (in_range 192 222 c && negb (ord c =? 215)).

(** [c.islower()] *)
Definition islower (c : ascii) : bool :=
  in_range 97 122 c || (ord c =? 170) || (ord c =? 181) || (ord c =? 186)
  || (in_range 223 255 c && negb (ord c =? 247)).

(** [int(c)] for a one-character string: only the decimal digits convert. *)
Definition int_of_char (c : ascii) : result Z :=
  if in_range 48 57 c then Ok (ord c - 48) else Raise ValueError.

(** ** Splitting *)

(** [s.split()]: maximal runs of non-whitespace characters.  [cur] holds the
    field being read, last character first. *)
Fixpoint split_from (cur : pystr) (s : pystr) : list pystr :=
  match s with
  | [] => match cur with [] => [] | _ => [rev cur] end
  | c :: s' =>
      if isspace c then
        match cur with
        | [] => split_from [] s'
        | _ => rev cur :: split_from [] s'
        end
      else split_from (c :: cur) s'
  end.

Definition split (s : pystr) : list pystr := split_from [] s.

(** [s.split(sep)] for a one-character separator: empty fields are kept. *)
Fixpoint split_on_from (sep : ascii) (cur : pystr) (s : pystr) : list pystr :=
  match s with
  | [] => [rev cur]
  | c :: s' =>
      if Ascii.eqb c sep then rev cur :: split_on_from sep [] s'
      else split_on_from sep (c :: cur) s'
  end.

Definition split_on (sep : ascii) (s : pystr) : list pystr :=
  split_on_from sep [] s.

(** ** The board of the scripts: rows of one-character cells, rank 8 first *)

Definition board := list (list ascii).

(** The inner loop of the parser: one rank of the placement field. *)
Fixpoint parse_rank (row : list ascii) (rank : pystr) : result (list ascii) :=
  match rank with
  | [] => Ok row
  | char :: rest =>
      if isdigit char then
        n <- int_of_char char ;;
        parse_rank (row ++ repeat "."%char (Z.to_nat n)) rest
      else parse_rank (row ++ [char]) rest
  end.

(** The outer loop of the parser. *)
Fixpoint parse_ranks (b : board) (ranks : list pystr) : result board :=
  match ranks with
  | [] => Ok b
  | rank :: rest =>
      row <- parse_rank [] rank ;;
      parse_ranks (b ++ [row]) rest
  end.

Definition parse_board (board_part : pystr) : result board :=
  parse_ranks [] (split_on "/"%char board_part).

(** ** Squares as the scripts write them *)

Definition files : pystr := str "abcdefgh".

(** [s.index(c)] for a one-character [c]. *)
Fixpoint index_from (i : Z) (s : pystr) (c : ascii) : result Z :=
  match s with
  | [] => Raise ValueError
  | d :: s' => if Ascii.eqb d c then Ok i else index_from (i + 1) s' c
  end.

Definition index (s : pystr) (c : ascii) : result Z := index_from 0 s c.

(** [board[row][col]] *)
Definition cell (b : board) (row col : Z) : result ascii :=
  r <- getitem b row ;;
  getitem r col.

(** [range(8)] *)
Definition range8 : list Z := [0; 1; 2; 3; 4; 5; 6; 7].

(** A [for] loop over a list that threads the loop's variables. *)
Fixpoint for_each {S : Type} (xs : list Z) (body : Z -> S -> result S) (s : S)
  : result S :=
  match xs with
  | [] => Ok s
  | x :: xs' => s' <- body x s ;; for_each xs' body s'
  end.


(** ** validate_en_passant.py *)

Module EnPassant.

(** The f-string that rebuilds the state string. *)
Definition join6 (board_part active_color castling en_passant halfmove fullmove : pystr)
  : pystr :=
  board_part ++ str " " ++ active_color ++ str " " ++ castling ++ str " "
  ++ en_passant ++ str " " ++ halfmove ++ str " " ++ fullmove.

(** One of the two symmetric branches: the pawn that just moved must stand
    on row [r] in the target's file, and a pawn [capturer] must stand next to
    it on the same row.  [valid] is threaded as the source assigns it. *)
Definition check_branch (b : board) (r : Z) (mover capturer : ascii)
  (file_idx : Z) (valid : bool) : result bool :=
  if (0 <=? file_idx) && (file_idx <? 8) then
    own <- cell b r file_idx ;;
    if Ascii.eqb own mover then
      valid <- (if file_idx >? 0 then
                  left <- cell b r (file_idx - 1) ;;
                  Ok (if Ascii.eqb left capturer then true else valid)
                else Ok valid) ;;
      (if file_idx <? 7 then
         right <- cell b r (file_idx + 1) ;;
         Ok (if Ascii.eqb right capturer then true else valid)
       else Ok valid)
    else Ok valid
  else Ok valid.

(** The body of [if en_passant != '-':], giving the new value of
    [en_passant]. *)
Definition check_en_passant (b : board) (active_color en_passant : pystr)
  : result pystr :=
  c0 <- getitem en_passant 0 ;;
  let file_idx := ord c0 - ord "a"%char in
  c1 <- getitem en_passant 1 ;;
  rank <- int_of_char c1 ;;
  let last_moved :=
    if pystr_eqb active_color (str "w") then str "black" else str "white" in
  let valid := false in
  valid <- (if pystr_eqb last_moved (str "white") && (rank =? 3) then
              check_branch b 4 "P"%char "p"%char file_idx valid
            else if pystr_eqb last_moved (str "black") && (rank =? 6) then
              check_branch b 3 "p"%char "P"%char file_idx valid
            else Ok valid) ;;
  Ok (if negb valid then str "-" else en_passant).

(** Everything after the six fields have been taken apart. *)
Definition validate_fields
  (board_part active_color castling en_passant halfmove fullmove : pystr)
  : result pystr :=
  b <- parse_board board_part ;;
  en_passant <- (if negb (pystr_eqb en_passant (str "-")) then
                   check_en_passant b active_color en_passant
                 else Ok en_passant) ;;
  Ok (join6 board_part active_color castling en_passant halfmove fullmove).

Definition validate_en_passant (fen : pystr) : result pystr :=
  match split fen with
  | [board_part; active_color; castling; en_passant; halfmove; fullmove] =>
      validate_fields board_part active_color castling en_passant halfmove fullmove
  | _ => Ok fen
  end.

(** The en-passant field of a state string, when it has six fields. *)
Definition en_passant_field (fen : pystr) : option pystr :=
  match split fen with
  | [_; _; _; en_passant; _; _] => Some en_passant
  | _ => None
  end.

End EnPassant.



(** ** test/test_bishop_moves.py *)

Module Bishop.

(** The [while current_file != to_file] loop.  [Ok None] is the normal exit,
    [Ok (Some (file, row))] the early return at an occupied square.  The
    recursion is bounded by [fuel]; [None] means the bound was reached. *)
Fixpoint scan_path (fuel : nat) (b : board)
  (to_file file_step row_step current_file current_row : Z)
  : option (result (option (Z * Z))) :=
  match fuel with
  | O => None
  | S fuel' =>
      if negb (current_file =? to_file) then
        match cell b current_row current_file with
        | Raise e => Some (Raise e)
        | Ok c =>
            if negb (Ascii.eqb c ".") then
              Some (Ok (Some (current_file, current_row)))
            else
              scan_path fuel' b to_file file_step row_step
                (current_file + file_step) (current_row + row_step)
        end
      else Some (Ok None)
  end.

(** The first four assignments: the two squares taken apart. *)
Definition parse_squares (from_square to_square : pystr)
  : result (Z * Z * Z * Z) :=
  c <- getitem from_square 0 ;;
  from_file <- index files c ;;
  c <- getitem from_square 1 ;;
  from_rank <- int_of_char c ;;
  c <- getitem to_square 0 ;;
  to_file <- index files c ;;
  c <- getitem to_square 1 ;;
  to_rank <- int_of_char c ;;
  Ok (from_file, from_rank, to_file, to_rank).

(** [# Check destination square] and the final return. *)
Definition check_destination (b : board) (to_row to_file : Z) (color : pystr)
  : result (bool * pystr) :=
  dest_piece <- cell b to_row to_file ;;
  if negb (Ascii.eqb dest_piece ".") then
    if pystr_eqb color (str "white") && isupper dest_piece then
      Ok (false, str "Destination occupied by own piece")
    else if pystr_eqb color (str "black") && islower dest_piece then
      Ok (false, str "Destination occupied by own piece")
    else Ok (true, str "Legal move")
  else Ok (true, str "Legal move").

Definition can_bishop_move_to_fuel (fuel : nat) (b : board)
  (from_square to_square color : pystr) : option (result (bool * pystr)) :=
  match parse_squares from_square to_square with
  | Raise e => Some (Raise e)
  | Ok (from_file, from_rank, to_file, to_rank) =>
      let from_row := 8 - from_rank in
      let to_row := 8 - to_rank in
      let file_diff := Z.abs (to_file - from_file) in
      let rank_diff := Z.abs (to_rank - from_rank) in
      if negb (file_diff =? rank_diff) || (file_diff =? 0) then
        Some (Ok (false, str "Not a diagonal move"))
      else
        let file_step := if to_file >? from_file then 1 else -1 in
        let rank_step := if to_rank >? from_rank then 1 else -1 in
        let row_step := - rank_step in
        let current_file := from_file + file_step in
        let current_row := from_row + row_step in
        match scan_path fuel b to_file file_step row_step current_file current_row with
        | None => None
        | Some (Raise e) => Some (Raise e)
        | Some (Ok (Some (blocked_file, blocked_row))) =>
            Some (f <- getitem files blocked_file ;;
                  Ok (false,
                      str "Path blocked at " ++ [f] ++ str_of_int (8 - blocked_row)))
        | Some (Ok None) => Some (check_destination b to_row to_file color)
        end
  end.

(** Both files are indices into ['abcdefgh'], so the loop tests its
    condition at most seven times. *)
Definition can_bishop_move_to := can_bishop_move_to_fuel 8.

End Bishop.

(** ** test/analyze_position.py *)

Module Pawn.

(** The body of the two nested loops, for the square
    [(rank_idx, file_idx)]; [valid_moves] is the list being built. *)
Definition pawn_step (b : board) (pawn : ascii) (direction start_rank : Z)
  (rank_idx file_idx : Z) (valid_moves : list pystr) : result (list pystr) :=
  c <- cell b rank_idx file_idx ;;
  if Ascii.eqb c pawn then
    file <- getitem files file_idx ;;
    let new_rank_idx := rank_idx + direction in
    if (0 <=? new_rank_idx) && (new_rank_idx <? 8) then
      c1 <- cell b new_rank_idx file_idx ;;
      if Ascii.eqb c1 "." then
        let move := [file] ++ str_of_int (8 - new_rank_idx) in
        let valid_moves := valid_moves ++ [move] in
        if rank_idx =? start_rank then
          let two_forward := rank_idx + 2 * direction in
          c2 <- cell b two_forward file_idx ;;
          if Ascii.eqb c2 "." then
            let move := [file] ++ str_of_int (8 - two_forward) in
            Ok (valid_moves ++ [move])
          else Ok valid_moves
        else Ok valid_moves
      else Ok valid_moves
    else Ok valid_moves
  else Ok valid_moves.

Definition pawn_of (color : pystr) : ascii :=
  if pystr_eqb color (str "white") then "P"%char else "p"%char.

Definition direction_of (color : pystr) : Z :=
  if pystr_eqb color (str "white") then -1 else 1.

Definition start_rank_of (color : pystr) : Z :=
  if pystr_eqb color (str "white") then 6 else 1.

Definition analyze_pawn_moves (b : board) (color : pystr) : result (list pystr) :=
  let pawn := pawn_of color in
  let direction := direction_of color in
  let start_rank := start_rank_of color in
  let valid_moves := [] in
  for_each range8 (fun rank_idx valid_moves =>
    for_each range8 (fun file_idx valid_moves =>
      pawn_step b pawn direction start_rank rank_idx file_idx valid_moves)
    valid_moves)
  valid_moves.

(** The moves the loop body adds for one square. *)
Definition moves_at (b : board) (color : pystr) (rank_idx file_idx : Z)
  : result (list pystr) :=
  pawn_step b (pawn_of color) (direction_of color) (start_rank_of color)
    rank_idx file_idx [].

End Pawn.

Import EnPassant Bishop Pawn.

(** ** Vocabulary of the statements *)

Definition nospace (w : pystr) : bool := forallb (fun c => negb (isspace c)) w.

(** A field is a non-empty run of non-whitespace characters. *)
Definition is_field (w : pystr) : Prop := w <> [] /\ nospace w = true.

(** Eight rows of eight cells. *)
Definition wf_board (b : board) : bool :=
  (List.length b =? 8)%nat && forallb (fun row => (List.length row =? 8)%nat) b.

(** The cell in row [row] (0 is rank 8) and column [col] (0 is file a). *)
Definition look (b : board) (row col : Z) : ascii :=
  nth (Z.to_nat col) (nth (Z.to_nat row) b []) "."%char.

Definition on_board (i : Z) : bool := (0 <=? i) && (i <? 8).

(** A file letter [a]..[h] followed by a rank digit [1]..[8], nothing else. *)
Definition names_square (sq : pystr) : bool :=
  match sq with
  | [f; r] => in_range 97 104 f && in_range 49 56 r
  | _ => false
  end.

(** The text of the square in column [file_idx] on rank [rank]. *)
Definition square_name (file_idx rank : Z) : pystr :=
  [nth (Z.to_nat file_idx) files "?"%char] ++ str_of_int rank.

(** [p] stands on rank [rank] (1..8) in column [file_idx]. *)
Definition piece_at (b : board) (rank file_idx : Z) (p : ascii) : bool :=
  on_board file_idx && Ascii.eqb (look b (8 - rank) file_idx) p.

(** Some neighbouring file holds [p] on rank [rank]. *)
Definition some_adjacent (b : board) (rank file_idx : Z) (p : ascii) : bool :=
  piece_at b rank (file_idx - 1) p || piece_at b rank (file_idx + 1) p.

(** Each neighbouring file that is on the board holds [p] on rank [rank]. *)
Definition each_adjacent (b : board) (rank file_idx : Z) (p : ascii) : bool :=
  (negb (on_board (file_idx - 1)) || piece_at b rank (file_idx - 1) p)
  && (negb (on_board (file_idx + 1)) || piece_at b rank (file_idx + 1) p).

(** The column and the rank digit of an en-passant field, read as the
    validator reads it: first and second character. *)
Definition target_file (en_passant : pystr) : Z :=
  match en_passant with
  | c :: _ => ord c - ord "a"%char
  | [] => -1
  end.

Definition target_rank (en_passant : pystr) : Z :=
  match en_passant with
  | _ :: d :: _ => ord d - ord "0"%char
  | _ => 0
  end.

(** The rank digit a kept target must carry: 6 when the side to move is
    ['w'], 3 otherwise. *)
Definition rank_digit (active_color : pystr) : ascii :=
  if pystr_eqb active_color (str "w") then "6"%char else "3"%char.

(** When the validator keeps a target: White moved last (the side to move
    is not ['w']), the target is on rank 3, a white pawn stands above it on
    rank 4 and a black pawn stands next to that pawn; or the same for Black
    with ranks 6 and 5.  [adjacent] says how the neighbouring files count. *)
Definition keeps_with (adjacent : board -> Z -> Z -> ascii -> bool)
  (b : board) (active_color en_passant : pystr) : bool :=
  let file_idx := target_file en_passant in
  if pystr_eqb active_color (str "w") then
    (target_rank en_passant =? 6) && piece_at b 5 file_idx "p"%char
    && adjacent b 5 file_idx "P"%char
  else
    (target_rank en_passant =? 3) && piece_at b 4 file_idx "P"%char
    && adjacent b 4 file_idx "p"%char.

(** The rule of the code: one capturing pawn is enough. *)
Definition keeps := keeps_with some_adjacent.

(** The rule in the words of the specification: a pawn on each adjacent
    file. *)
Definition keeps_spec := keeps_with each_adjacent.

(** Ownership of a cell, as [can_bishop_move_to] tests it. *)
Definition own_piece (color : pystr) (c : ascii) : bool :=
  negb (Ascii.eqb c ".")
  && ((pystr_eqb color (str "white") && isupper c)
      || (pystr_eqb color (str "black") && islower c)).

Definition enemy_piece (color : pystr) (c : ascii) : bool :=
  (pystr_eqb color (str "white") && islower c)
  || (pystr_eqb color (str "black") && isupper c).

(** The [k]-th square on the way from [(from_file, from_rank)] towards
    [(to_file, to_rank)]: column and rank. *)
Definition on_the_way (from_file from_rank to_file to_rank k : Z) : Z * Z :=
  (from_file + k * Z.sgn (to_file - from_file),
   from_rank + k * Z.sgn (to_rank - from_rank)).

(** The cell of the board on a square given by column and rank. *)
Definition occupant (b : board) (sq : Z * Z) : ascii :=
  look b (8 - snd sq) (fst sq).

Definition diagonal (from_file from_rank to_file to_rank : Z) : Prop :=
  Z.abs (to_file - from_file) = Z.abs (to_rank - from_rank)
  /\ to_file <> from_file.

(** All squares strictly between origin and destination are empty. *)
Definition path_clear (b : board) (from_file from_rank to_file to_rank : Z) : Prop :=
  forall k, 0 < k < Z.abs (to_file - from_file) ->
    occupant b (on_the_way from_file from_rank to_file to_rank k) = "."%char.

(** The [k]-th square is the first occupied one strictly between origin and
    destination. *)
Definition first_blocker (b : board) (from_file from_rank to_file to_rank k : Z)
  : Prop :=
  0 < k < Z.abs (to_file - from_file)
  /\ occupant b (on_the_way from_file from_rank to_file to_rank k) <> "."%char
  /\ forall j, 0 < j < k ->
       occupant b (on_the_way from_file from_rank to_file to_rank j) = "."%char.

(** A loop body that only appends what [gen] yields for the round. *)
Definition appending {A : Type} (gen : Z -> result (list A)) (x : Z)
  (s : list A) : result (list A) :=
  ms <- gen x ;; Ok (s ++ ms).

(** The moves of one row of the board. *)
Definition row_moves (b : board) (color : pystr) (rank_idx : Z)
  : result (list pystr) :=
  for_each range8 (appending (moves_at b color rank_idx)) [].

(** ** test/test_bishop_moves.py: reading a board and finding pieces *)

Module BishopScript.

(** [parse_fen_to_board]: the first field of the state string, parsed as
    [validate_en_passant] parses it. *)
Definition parse_fen_to_board (fen : pystr) : result board :=
  board_part <- getitem (split fen) 0 ;;
  parse_board board_part.

(** The body of the two nested loops of [find_pieces]. *)
Definition find_step (b : board) (piece : pystr) (rank_idx file_idx : Z)
  (positions : list pystr) : result (list pystr) :=
  c <- cell b rank_idx file_idx ;;
  if pystr_eqb [c] piece then
    file <- getitem files file_idx ;;
    let rank := 8 - rank_idx in
    Ok (positions ++ [[file] ++ str_of_int rank])
  else Ok positions.

Definition find_pieces (b : board) (piece : pystr) : result (list pystr) :=
  let positions := [] in
  for_each range8 (fun rank_idx positions =>
    for_each range8 (fun file_idx positions =>
      find_step b piece rank_idx file_idx positions)
    positions)
  positions.

(** The squares one cell contributes. *)
Definition found_at (b : board) (piece : pystr) (rank_idx file_idx : Z)
  : result (list pystr) :=
  find_step b piece rank_idx file_idx [].

(** [s[-2:]] *)
Definition last_two (s : pystr) : pystr :=
  skipn (List.length s - 2) s.

(** The loop of [test_bishop_scenarios] over the bishops found: it stops at
    the first bishop that can make the move. *)
Fixpoint try_bishops (b : board) (bishops : list pystr)
  (dest_square active_color : pystr) (valid_move : bool)
  : option (result bool) :=
  match bishops with
  | [] => Some (Ok valid_move)
  | bishop_pos :: rest =>
      match can_bishop_move_to b bishop_pos dest_square active_color with
      | None => None
      | Some (Raise e) => Some (Raise e)
      | Some (Ok (can_move, reason)) =>
          if can_move then Some (Ok true)
          else try_bishops b rest dest_square active_color valid_move
      end
  end.

(** What [test_bishop_scenarios] computes for one test case, from its
    state string and its move: the value of [valid_move] that is compared
    with the expectation. *)
Definition scenario_valid_move (fen move : pystr) : option (result bool) :=
  match
    (b <- parse_fen_to_board fen ;;
     parts_1 <- getitem (split fen) 1 ;;
     let active_color :=
       if pystr_eqb parts_1 (str "w") then str "white" else str "black" in
     let bishop_char :=
       if pystr_eqb active_color (str "white") then str "B" else str "b" in
     bishops <- find_pieces b bishop_char ;;
     let dest_square := last_two move in
     _ <- getitem b 6 ;;
     _ <- getitem b 7 ;;
     Ok (b, bishops, dest_square, active_color))
  with
  | Raise e => Some (Raise e)
  | Ok (b, bishops, dest_square, active_color) =>
      try_bishops b bishops dest_square active_color false
  end.

End BishopScript.

(** ** test/analyze_position.py: reading the state string *)

Module Position.

(** [parse_and_display_board]: all six fields are taken first, then the
    placement is parsed and the board returned. *)
Definition parse_and_display_board (fen : pystr) : result board :=
  let parts := split fen in
  board_part <- getitem parts 0 ;;
  active_color <- getitem parts 1 ;;
  castling <- getitem parts 2 ;;
  en_passant <- getitem parts 3 ;;
  halfmove <- getitem parts 4 ;;
  fullmove <- getitem parts 5 ;;
  parse_board board_part.

End Position.

(** ** test_all_moves.py: the rows shown for a position *)

Module Display.

(** [s * n] for a string. *)
Fixpoint str_mul (s : pystr) (n : nat) : pystr :=
  match n with
  | O => []
  | S n' => s ++ str_mul s n'
  end.

(** The inner loop of [display_position]: the text of one row. *)
Fixpoint display_rank (row : pystr) (rank : pystr) : result pystr :=
  match rank with
  | [] => Ok row
  | char :: rest =>
      if isdigit char then
        n <- int_of_char char ;;
        display_rank (row ++ str_mul (str ". ") (Z.to_nat n)) rest
      else display_rank (row ++ ([char] ++ str " ")) rest
  end.

(** The outer loop: [i] counts the rows, [shown] collects the texts that
    are printed. *)
Fixpoint display_ranks (i : Z) (shown : list pystr) (ranks : list pystr)
  : result (list pystr) :=
  match ranks with
  | [] => Ok shown
  | rank :: rest =>
      let rank_num := 8 - i in
      row <- display_rank (str_of_int rank_num ++ str " ") rank ;;
      display_ranks (i + 1) (shown ++ [row]) rest
  end.

(** [display_position]: the rows of the board it prints, in order. *)
Definition display_position (fen : pystr) : result (list pystr) :=
  board_part <- getitem (split fen) 0 ;;
  active <- getitem (split fen) 1 ;;
  let ranks := split_on "/"%char board_part in
  display_ranks 0 [] ranks.

End Display.

Import BishopScript Position Display.

(** ** More vocabulary *)

(** The cells one character of a placement stands for: a decimal digit
    stands for that many, any other character for one. *)
Definition char_width (c : ascii) : nat :=
  if in_range 48 57 c then Z.to_nat (ord c - 48) else 1%nat.

Definition rank_width (rank : pystr) : nat :=
  list_sum (map char_width rank).

(** The characters that [isdigit] accepts and [int] refuses. *)
Definition superscript (c : ascii) : bool :=
  isdigit c && negb (in_range 48 57 c).

(** The text of a rendered row: every cell followed by a space. *)
Definition spaced (cells : list ascii) : pystr :=
  flat_map (fun c => [c; " "%char]) cells.

(** Two nested loops over [range(8)] whose body appends what [gen] yields
    for the square. *)
Definition collect64 {A : Type} (gen : Z -> Z -> result (list A))
  : result (list A) :=
  for_each range8
    (appending (fun r => for_each range8 (appending (gen r)) [])) [].

(** The rows of a board as the scripts show them: the rank number, a
    space, and every cell followed by a space; [i] is the index of the first
    row. *)
Fixpoint shown_rows (i : Z) (b : board) : list pystr :=
  match b with
  | [] => []
  | cells :: rest =>
      (str_of_int (8 - i) ++ str " " ++ spaced cells) :: shown_rows (i + 1) rest
  end.

(** * The test cases of the scripts *)

(** The three cases of [test_validation].  The second one expects ["e6"]
    to be kept, but its state string has Black to move, so that White is
    taken to have moved last and only a target on rank 3 can be kept. *)
Example validation_case_1 :
  validate_en_passant
    (str "rnbqkbnr/pppp1ppp/8/4p3/8/P7/1PPPPPPP/RNBQKBNR w KQkq e6 0 2")
  = Ok (str "rnbqkbnr/pppp1ppp/8/4p3/8/P7/1PPPPPPP/RNBQKBNR w KQkq - 0 2").
Proof. vm_compute. reflexivity. Qed.

Example validation_case_2 :
  validate_en_passant
    (str "rnbqkbnr/pppp1ppp/8/3Pp3/8/8/PPP1PPPP/RNBQKBNR b KQkq e6 0 2")
  = Ok (str "rnbqkbnr/pppp1ppp/8/3Pp3/8/8/PPP1PPPP/RNBQKBNR b KQkq - 0 2").
Proof. vm_compute. reflexivity. Qed.

Example validation_case_2_white_to_move :
  validate_en_passant
    (str "rnbqkbnr/pppp1ppp/8/3Pp3/8/8/PPP1PPPP/RNBQKBNR w KQkq e6 0 2")
  = Ok (str "rnbqkbnr/pppp1ppp/8/3Pp3/8/8/PPP1PPPP/RNBQKBNR w KQkq e6 0 2").
Proof. vm_compute. reflexivity. Qed.

Example validation_case_3 :
  validate_en_passant
    (str "rnbqkbnr/ppp1pppp/8/3p4/3P4/8/PPP1PPPP/RNBQKBNR w KQkq d6 0 2")
  = Ok (str "rnbqkbnr/ppp1pppp/8/3p4/3P4/8/PPP1PPPP/RNBQKBNR w KQkq - 0 2").
Proof. vm_compute. reflexivity. Qed.

(** Exceptions: a one-character en-passant field, a rank that is no digit, a
    placement with too few rows, a superscript digit in the placement. *)
Example validate_raises :
  validate_en_passant (str "8/8/8/8/8/8/8/8 b - e 0 1") = Raise IndexError
  /\ validate_en_passant (str "8/8/8/8/8/8/8/8 b - ex 0 1") = Raise ValueError
  /\ validate_en_passant (str "8/8 b - e3 0 1") = Raise IndexError
  /\ validate_en_passant ("178"%char :: str "/8 b - - 0 1") = Raise ValueError.
Proof. repeat split; vm_compute; reflexivity. Qed.

Example str_of_int_examples :
  str_of_int 3 = str "3" /\ str_of_int 0 = str "0" /\ str_of_int (-1) = str "-1"
  /\ str_of_int 10 = str "10".
Proof. repeat split; vm_compute; reflexivity. Qed.
Lemma nospace_app u v : nospace (u ++ v) = nospace u && nospace v.
Proof. apply forallb_app. Qed.

Lemma nospace_rev u : nospace (rev u) = nospace u.
Proof.
  induction u as [|c u IH]; simpl; auto.
  rewrite nospace_app, IH. simpl. rewrite andb_true_r. apply andb_comm.
Qed.

Lemma split_from_fields s : forall cur,
  nospace cur = true -> Forall is_field (split_from cur s).
Proof.
  induction s as [|c s IH]; intros cur Hcur; simpl.
  - destruct cur as [|d cur]; constructor; auto.
    split.
    + intro E. apply (f_equal (@List.length ascii)) in E.
      rewrite length_rev in E. discriminate.
    + now rewrite nospace_rev.
  - destruct (isspace c) eqn:Hc.
    + destruct cur as [|d cur].
      * apply IH. reflexivity.
      * constructor.
        -- split.
           ++ intro E. apply (f_equal (@List.length ascii)) in E.
              rewrite length_rev in E. discriminate.
           ++ now rewrite nospace_rev.
        -- apply IH. reflexivity.
    + apply IH. simpl. now rewrite Hc.
Qed.

Lemma split_fields s : Forall is_field (split s).
Proof. apply split_from_fields. reflexivity. Qed.

(** Reading a run of non-whitespace characters pushes it on [cur]. *)
Lemma split_from_run w : forall cur s,
  nospace w = true -> split_from cur (w ++ s) = split_from (rev w ++ cur) s.
Proof.
  induction w as [|c w IH]; intros cur s Hw; simpl in *; auto.
  apply andb_true_iff in Hw as [Hc Hw].
  apply negb_true_iff in Hc. rewrite Hc.
  rewrite IH by assumption. now rewrite <- app_assoc.
Qed.

Lemma split_from_last w : is_field w -> split_from [] w = [w].
Proof.
  intros [Hne Hw].
  rewrite <- (app_nil_r w) at 1.
  rewrite split_from_run by assumption. simpl.
  rewrite app_nil_r.
  destruct (rev w) eqn:E.
  - apply (f_equal (@rev ascii)) in E. rewrite rev_involutive in E. contradiction.
  - rewrite <- E. now rewrite rev_involutive.
Qed.

Lemma split_from_sep w s :
  is_field w -> split_from [] (w ++ str " " ++ s) = w :: split_from [] s.
Proof.
  intros [Hne Hw].
  rewrite split_from_run by assumption. simpl.
  rewrite app_nil_r.
  destruct (rev w) eqn:E.
  - apply (f_equal (@rev ascii)) in E. rewrite rev_involutive in E. contradiction.
  - rewrite <- E. now rewrite rev_involutive.
Qed.

Lemma split_join6 b a c e h f :
  is_field b -> is_field a -> is_field c -> is_field e -> is_field h ->
  is_field f ->
  split (join6 b a c e h f) = [b; a; c; e; h; f].
Proof.
  intros Hb Ha Hc He Hh Hf. unfold split, join6.
  rewrite !split_from_sep by assumption.
  now rewrite split_from_last.
Qed.

Lemma dash_is_field : is_field (str "-").
Proof. split; [discriminate | reflexivity]. Qed.

Lemma pystr_eqb_eq a : forall b, pystr_eqb a b = true <-> a = b.
Proof.
  induction a as [|x a IH]; intros [|y b]; simpl; split; intro H;
    try discriminate; auto.
  - apply andb_true_iff in H as [Hx Ha].
    apply Ascii.eqb_eq in Hx. apply IH in Ha. congruence.
  - injection H as -> ->. rewrite Ascii.eqb_refl. simpl. now apply IH.
Qed.

Lemma pystr_eqb_refl a : pystr_eqb a a = true.
Proof. now apply pystr_eqb_eq. Qed.

Lemma six_fields s b a c e h f :
  split s = [b; a; c; e; h; f] ->
  is_field b /\ is_field a /\ is_field c /\ is_field e /\ is_field h /\ is_field f.
Proof.
  intro E. pose proof (split_fields s) as F. rewrite E in F.
  repeat match goal with
         | H : Forall _ (_ :: _) |- _ => inversion_clear H
         end.
  tauto.
Qed.

(** ** Subscription and well-formed boards *)

Lemma getitem_nth {A} (l : list A) (i : Z) (d : A) :
  0 <= i < Z.of_nat (List.length l) ->
  getitem l i = Ok (nth (Z.to_nat i) l d).
Proof.
  intros [H0 H1]. unfold getitem.
  replace (i <? 0) with false by (symmetry; apply Z.ltb_ge; lia).
  replace (0 <=? i) with true by (symmetry; apply Z.leb_le; lia).
  replace (i <? Z.of_nat (List.length l)) with true
    by (symmetry; apply Z.ltb_lt; lia).
  simpl. destruct (nth_error l (Z.to_nat i)) as [x|] eqn:E.
  - now rewrite (nth_error_nth _ _ d E).
  - apply nth_error_None in E. lia.
Qed.

Lemma getitem_first {A} (l : list A) (x : A) :
  getitem l 0 = Ok x -> exists rest, l = x :: rest.
Proof.
  destruct l as [|y rest]; [discriminate|].
  rewrite (getitem_nth _ _ y) by (simpl List.length; lia).
  simpl. intros [= ->]. now exists rest.
Qed.

Lemma getitem_second {A} (l : list A) (x : A) :
  getitem l 1 = Ok x -> exists y rest, l = y :: x :: rest.
Proof.
  destruct l as [|y [|z rest]]; try discriminate.
  rewrite (getitem_nth _ _ y) by (simpl List.length; lia).
  simpl. intros [= ->]. now exists y, rest.
Qed.

Lemma on_board_iff i : on_board i = true <-> 0 <= i < 8.
Proof. unfold on_board. rewrite andb_true_iff, Z.leb_le, Z.ltb_lt. tauto. Qed.

Lemma wf_board_rows b row :
  wf_board b = true -> 0 <= row < 8 ->
  List.length (nth (Z.to_nat row) b []) = 8%nat.
Proof.
  unfold wf_board. rewrite andb_true_iff. intros [Hl Hr] Hrow.
  apply Nat.eqb_eq in Hl. rewrite forallb_forall in Hr.
  apply Nat.eqb_eq. apply Hr. apply nth_In. lia.
Qed.

Lemma wf_cell b row col :
  wf_board b = true -> 0 <= row < 8 -> 0 <= col < 8 ->
  cell b row col = Ok (look b row col).
Proof.
  intros Hwf Hrow Hcol. unfold cell, look.
  pose proof (wf_board_rows b row Hwf Hrow) as Hlen.
  assert (Hb : List.length b = 8%nat).
  { unfold wf_board in Hwf. apply andb_true_iff in Hwf as [Hl _].
    now apply Nat.eqb_eq in Hl. }
  rewrite (getitem_nth b row []) by lia. simpl.
  apply getitem_nth. lia.
Qed.

(** The code points identify the characters. *)
Lemma ord_inj c d : ord c = ord d -> c = d.
Proof.
  unfold ord. intro H. apply N2Z.inj in H.
  rewrite <- (ascii_N_embedding c), <- (ascii_N_embedding d). now f_equal.
Qed.

Lemma ord_bound c : 0 <= ord c < 256.
Proof.
  unfold ord. pose proof (N_ascii_bounded c). lia.
Qed.

Lemma int_of_char_ok c n :
  int_of_char c = Ok n -> n = ord c - 48 /\ 48 <= ord c <= 57.
Proof.
  unfold int_of_char, in_range.
  destruct ((48 <=? ord c) && (ord c <=? 57)) eqn:E; [|discriminate].
  apply andb_true_iff in E as [E1 E2].
  apply Z.leb_le in E1. apply Z.leb_le in E2.
  intros [= <-]. lia.
Qed.

Lemma int_of_char_digit c :
  48 <= ord c <= 57 -> int_of_char c = Ok (ord c - 48).
Proof.
  intro H. unfold int_of_char, in_range.
  replace (48 <=? ord c) with true by (symmetry; apply Z.leb_le; lia).
  replace (ord c <=? 57) with true by (symmetry; apply Z.leb_le; lia).
  reflexivity.
Qed.

Lemma in_range_iff lo hi c : in_range lo hi c = true <-> lo <= ord c <= hi.
Proof. unfold in_range. rewrite andb_true_iff, !Z.leb_le. tauto. Qed.

(** ** The en-passant check on a well-formed board *)

Lemma check_branch_wf b row mover capturer file_idx :
  wf_board b = true -> 0 <= row < 8 ->
  check_branch b row mover capturer file_idx false
  = Ok (piece_at b (8 - row) file_idx mover
        && some_adjacent b (8 - row) file_idx capturer).
Proof.
  intros Hwf Hrow. unfold check_branch, some_adjacent, piece_at.
  replace (8 - (8 - row)) with row by lia.
  fold (on_board file_idx).
  destruct (on_board file_idx) eqn:Hf; [|reflexivity].
  apply on_board_iff in Hf.
  rewrite wf_cell by assumption. simpl bind.
  destruct (Ascii.eqb (look b row file_idx) mover); [|reflexivity].
  simpl andb.
  assert (Hl : on_board (file_idx - 1) = (file_idx >? 0)).
  { unfold on_board. rewrite Z.gtb_ltb.
    destruct (Z.ltb_spec 0 file_idx);
      [ replace (0 <=? file_idx - 1) with true by (symmetry; apply Z.leb_le; lia);
        replace (file_idx - 1 <? 8) with true by (symmetry; apply Z.ltb_lt; lia)
      | replace (0 <=? file_idx - 1) with false by (symmetry; apply Z.leb_gt; lia) ];
      reflexivity. }
  assert (Hr : on_board (file_idx + 1) = (file_idx <? 7)).
  { unfold on_board.
    destruct (Z.ltb_spec file_idx 7);
      [ replace (0 <=? file_idx + 1) with true by (symmetry; apply Z.leb_le; lia);
        replace (file_idx + 1 <? 8) with true by (symmetry; apply Z.ltb_lt; lia)
      | replace (file_idx + 1 <? 8) with false by (symmetry; apply Z.ltb_ge; lia);
        rewrite andb_false_r ];
      reflexivity. }
  rewrite Hl, Hr.
  destruct (file_idx >? 0) eqn:Hgt; destruct (file_idx <? 7) eqn:Hlt;
    try rewrite Z.gtb_ltb in Hgt;
    try apply Z.ltb_lt in Hgt; try apply Z.ltb_lt in Hlt;
    repeat (rewrite wf_cell by (assumption || lia)); simpl;
    repeat match goal with
           | |- context [Ascii.eqb ?x ?y] => destruct (Ascii.eqb x y)
           end; reflexivity.
Qed.

Lemma check_en_passant_named b active_color en_passant :
  wf_board b = true -> names_square en_passant = true ->
  check_en_passant b active_color en_passant
  = Ok (if keeps b active_color en_passant then en_passant else str "-").
Proof.
  intros Hwf Hsq.
  destruct en_passant as [|fc [|rc [|x rest]]]; try discriminate.
  simpl in Hsq. apply andb_true_iff in Hsq as [Hfc Hrc].
  apply in_range_iff in Hfc. apply in_range_iff in Hrc.
  unfold check_en_passant.
  rewrite (getitem_nth [fc; rc] 0 fc) by (simpl; lia).
  rewrite (getitem_nth [fc; rc] 1 fc) by (simpl; lia).
  simpl bind. change (nth (Z.to_nat 1) [fc; rc] fc) with rc.
  rewrite int_of_char_digit by lia. simpl bind.
  unfold keeps, keeps_with, target_file, target_rank.
  change (ord "0"%char) with 48.
  destruct (pystr_eqb active_color (str "w")).
  - change (pystr_eqb (str "black") (str "white")) with false.
    change (pystr_eqb (str "black") (str "black")) with true.
    simpl andb at 1.
    destruct (ord rc - 48 =? 6).
    + rewrite (check_branch_wf b 3) by (assumption || lia).
      change (8 - 3) with 5. simpl bind.
      rewrite ?andb_true_l.
      now destruct (piece_at b 5 _ _ && some_adjacent b 5 _ _).
    + reflexivity.
  - change (pystr_eqb (str "white") (str "white")) with true.
    destruct (ord rc - 48 =? 3).
    + simpl andb. rewrite (check_branch_wf b 4) by (assumption || lia).
      change (8 - 4) with 4. simpl bind.
      rewrite ?andb_true_l.
      now destruct (piece_at b 4 _ _ && some_adjacent b 4 _ _).
    + change (pystr_eqb (str "white") (str "black")) with false.
      reflexivity.
Qed.

(** What a returned en-passant field can be, on any board. *)
Lemma check_branch_true b row mover capturer file_idx :
  check_branch b row mover capturer file_idx false = Ok true ->
  0 <= file_idx < 8.
Proof.
  unfold check_branch. fold (on_board file_idx).
  destruct (on_board file_idx) eqn:Hf; [|discriminate].
  intros _. now apply on_board_iff.
Qed.

Lemma check_en_passant_result b active_color en_passant en_passant' :
  check_en_passant b active_color en_passant = Ok en_passant' ->
  en_passant' = str "-"
  \/ (en_passant' = en_passant
      /\ exists f rest,
           en_passant = f :: rank_digit active_color :: rest
           /\ in_range 97 104 f = true).
Proof.
  unfold check_en_passant.
  destruct (getitem en_passant 0) as [c0|] eqn:E0; [|discriminate].
  simpl bind.
  destruct (getitem en_passant 1) as [c1|] eqn:E1; [|discriminate].
  simpl bind.
  destruct (int_of_char c1) as [rank|] eqn:Ei; [|discriminate].
  simpl bind.
  apply getitem_first in E0 as [rest0 ->].
  apply getitem_second in E1 as (y & rest & [= -> ->]).
  apply int_of_char_ok in Ei as [-> Hd].
  unfold rank_digit.
  destruct (pystr_eqb active_color (str "w")).
  - change (pystr_eqb (str "black") (str "white")) with false.
    change (pystr_eqb (str "black") (str "black")) with true.
    simpl andb at 1.
    destruct (Z.eqb_spec (ord c1 - 48) 6) as [H6|H6].
    + destruct (check_branch b 3 _ _ _ false) as [[|]|] eqn:Eb;
        simpl; intros [= <-]; auto.
      right. split; [reflexivity|].
      exists y, rest. split.
      * f_equal. f_equal. apply ord_inj. change (ord "6"%char) with 54. lia.
      * apply check_branch_true in Eb. change (ord "a"%char) with 97 in Eb.
        apply in_range_iff. lia.
    + simpl. intros [= <-]. now left.
  - change (pystr_eqb (str "white") (str "white")) with true.
    destruct (Z.eqb_spec (ord c1 - 48) 3) as [H3|H3].
    + simpl andb.
      destruct (check_branch b 4 _ _ _ false) as [[|]|] eqn:Eb;
        simpl; intros [= <-]; auto.
      right. split; [reflexivity|].
      exists y, rest. split.
      * f_equal. f_equal. apply ord_inj. change (ord "3"%char) with 51. lia.
      * apply check_branch_true in Eb. change (ord "a"%char) with 97 in Eb.
        apply in_range_iff. lia.
    + change (pystr_eqb (str "white") (str "black")) with false.
      simpl. intros [= <-]. now left.
Qed.

(** ** The validator on its two paths *)

Lemma validate_six s bp ac ca ep hm fm :
  split s = [bp; ac; ca; ep; hm; fm] ->
  validate_en_passant s = validate_fields bp ac ca ep hm fm.
Proof. intro E. unfold validate_en_passant. now rewrite E. Qed.

Lemma validate_other s :
  List.length (split s) <> 6%nat -> validate_en_passant s = Ok s.
Proof.
  unfold validate_en_passant.
  destruct (split s) as [|a [|b [|c [|d [|e [|f [|g l]]]]]]]; simpl; intro H;
    try reflexivity.
  contradiction.
Qed.

Lemma en_passant_field_join6 bp ac ca ep hm fm :
  is_field bp -> is_field ac -> is_field ca -> is_field ep -> is_field hm ->
  is_field fm ->
  en_passant_field (join6 bp ac ca ep hm fm) = Some ep.
Proof.
  intros. unfold en_passant_field. now rewrite split_join6.
Qed.

(** Whatever the validator returns is the six fields put back together,
    with the en-passant field kept or replaced by ['-']; and the validator
    returns the same string when run on these fields again. *)
Lemma validate_fields_out bp ac ca ep hm fm out :
  validate_fields bp ac ca ep hm fm = Ok out ->
  exists ep',
    out = join6 bp ac ca ep' hm fm
    /\ validate_fields bp ac ca ep' hm fm = Ok out
    /\ (ep' = str "-"
        \/ (ep' = ep
            /\ exists f rest,
                 ep = f :: rank_digit ac :: rest /\ in_range 97 104 f = true)).
Proof.
  unfold validate_fields.
  destruct (parse_board bp) as [b|] eqn:Eb; [|discriminate]. simpl bind.
  destruct (pystr_eqb ep (str "-")) eqn:Ed; simpl negb; cbv iota.
  - simpl bind. intros [= <-]. apply pystr_eqb_eq in Ed. subst ep.
    exists (str "-"). rewrite pystr_eqb_refl. simpl. auto.
  - destruct (check_en_passant b ac ep) as [ep'|] eqn:Ec; [|discriminate].
    simpl bind. intros [= <-]. exists ep'. split; [reflexivity|].
    destruct (check_en_passant_result _ _ _ _ Ec) as [-> | [-> Hshape]].
    + rewrite pystr_eqb_refl. simpl. auto.
    + rewrite Ed. simpl negb. cbv iota. rewrite Ec. simpl. auto.
Qed.

(** On a well-formed state string the validator returns. *)
Lemma validate_fields_wf bp ac ca ep hm fm b :
  parse_board bp = Ok b -> wf_board b = true ->
  ep = str "-" \/ names_square ep = true ->
  validate_fields bp ac ca ep hm fm
  = Ok (join6 bp ac ca
          (if pystr_eqb ep (str "-") then ep
           else if keeps b ac ep then ep else str "-") hm fm).
Proof.
  intros Eb Hwf Hep. unfold validate_fields. rewrite Eb. simpl bind.
  destruct (pystr_eqb ep (str "-")) eqn:Ed; simpl negb; cbv iota.
  - reflexivity.
  - destruct Hep as [-> | Hsq]; [now rewrite pystr_eqb_refl in Ed|].
    now rewrite check_en_passant_named.
Qed.

Lemma names_square_not_dash ep :
  names_square ep = true -> pystr_eqb ep (str "-") = false.
Proof.
  destruct ep as [|f [|r [|x l]]]; try discriminate.
  intros _. unfold str. simpl. apply andb_false_r.
Qed.

Lemma names_square_field ep : names_square ep = true -> is_field ep.
Proof.
  destruct ep as [|f [|r [|x l]]]; try discriminate. simpl.
  rewrite andb_true_iff, !in_range_iff. intros [Hf Hr].
  split; [discriminate|].
  unfold nospace, isspace, in_range. simpl.
  repeat match goal with
         | |- context [?a <=? ?b] => destruct (Z.leb_spec a b); try lia
         | |- context [?a =? ?b] => destruct (Z.eqb_spec a b); try lia
         end; reflexivity.
Qed.

(** ** The bishop's path *)

Lemma index_files c i :
  index files c = Ok i ->
  0 <= i < 8 /\ nth (Z.to_nat i) files "?"%char = c.
Proof.
  unfold index.
  change files
    with ["a"; "b"; "c"; "d"; "e"; "f"; "g"; "h"]%char.
  cbn [index_from].
  repeat match goal with
         | |- context [Ascii.eqb ?x c] => destruct (Ascii.eqb_spec x c)
         end; intro H; inversion H; subst; (split; [lia | reflexivity]).
Qed.

Lemma getitem_files i :
  0 <= i < 8 -> getitem files i = Ok (nth (Z.to_nat i) files "?"%char).
Proof. intro H. apply getitem_nth. simpl. lia. Qed.

(** [n] empty squares in a row are walked over. *)
Lemma scan_path_run b to_file fs rs :
  wf_board b = true ->
  forall (n fuel : nat) (cf cr : Z),
    (n <= fuel)%nat ->
    (forall j, 0 <= j < Z.of_nat n ->
       0 <= cf + j * fs < 8 /\ 0 <= cr + j * rs < 8
       /\ cf + j * fs <> to_file
       /\ look b (cr + j * rs) (cf + j * fs) = "."%char) ->
    scan_path fuel b to_file fs rs cf cr
    = scan_path (fuel - n) b to_file fs rs
        (cf + Z.of_nat n * fs) (cr + Z.of_nat n * rs).
Proof.
  intros Hwf. induction n as [|n IH]; intros fuel cf cr Hfuel Hrun.
  - rewrite Nat.sub_0_r. simpl Z.of_nat. now rewrite !Z.mul_0_l, !Z.add_0_r.
  - destruct fuel as [|fuel]; [lia|].
    destruct (Hrun 0 ltac:(lia)) as (Hf & Hr & Hne & Hdot).
    replace (cf + 0 * fs) with cf in * by lia.
    replace (cr + 0 * rs) with cr in * by lia.
    replace (S fuel - S n)%nat with (fuel - n)%nat by lia.
    rewrite Nat2Z.inj_succ.
    cbn [scan_path].
    replace (cf =? to_file) with false by (symmetry; now apply Z.eqb_neq).
    simpl negb. cbv iota.
    rewrite wf_cell by assumption. rewrite Hdot.
    change (negb (Ascii.eqb "." ".")) with false. cbv iota.
    rewrite (IH fuel (cf + fs) (cr + rs)) by
      (try lia; intros j Hj; specialize (Hrun (j + 1) ltac:(lia));
       replace (cf + fs + j * fs) with (cf + (j + 1) * fs) by lia;
       replace (cr + rs + j * rs) with (cr + (j + 1) * rs) by lia;
       exact Hrun).
    f_equal; lia.
Qed.

Lemma scan_path_stop fuel b to_file fs rs cr :
  scan_path (S fuel) b to_file fs rs to_file cr = Some (Ok None).
Proof. simpl. now rewrite Z.eqb_refl. Qed.

Lemma scan_path_hit fuel b to_file fs rs cf cr :
  wf_board b = true -> 0 <= cf < 8 -> 0 <= cr < 8 ->
  cf <> to_file -> look b cr cf <> "."%char ->
  scan_path (S fuel) b to_file fs rs cf cr = Some (Ok (Some (cf, cr))).
Proof.
  intros Hwf Hf Hr Hne Hocc. simpl.
  replace (cf =? to_file) with false by (symmetry; now apply Z.eqb_neq).
  simpl negb. cbv iota. rewrite wf_cell by assumption.
  destruct (Ascii.eqb_spec (look b cr cf) "."); [contradiction | reflexivity].
Qed.

(** Either every square strictly between is empty, or there is a first
    occupied one. *)
Lemma clear_or_blocked b ff fr tf tr :
  path_clear b ff fr tf tr \/ exists k, first_blocker b ff fr tf tr k.
Proof.
  unfold path_clear, first_blocker.
  set (P := fun k => occupant b (on_the_way ff fr tf tr k) = "."%char).
  assert (H : forall n : nat,
             (forall k, 0 < k < Z.of_nat n -> P k)
             \/ exists k, 0 < k < Z.of_nat n /\ ~ P k
                          /\ forall j, 0 < j < k -> P j).
  { induction n as [|n [IH | (k & Hk & Hnot & Hbefore)]].
    - left. intros k Hk. lia.
    - destruct (ascii_dec (occupant b (on_the_way ff fr tf tr (Z.of_nat n)))
                  "."%char) as [E|E].
      + left. intros k Hk.
        destruct (Z.eq_dec k (Z.of_nat n)) as [-> | Hne];
          [exact E | apply IH; lia].
      + destruct n as [|n]; [left; intros k Hk; lia|].
        right. exists (Z.of_nat (S n)). split; [lia|]. split; [exact E|].
        intros j Hj. apply IH. lia.
    - right. exists k. split; [lia|]. now split. }
  destruct (H (Z.to_nat (Z.abs (tf - ff)))) as [Hc | (k & Hk & Hnot & Hbefore)].
  - left. intros k Hk. apply Hc. lia.
  - right. exists k. split; [lia|]. now split.
Qed.

Lemma isupper_not_islower c : isupper c = true -> islower c = false.
Proof.
  unfold isupper, islower, in_range. intro H.
  repeat match goal with
         | |- context [?a <=? ?b] => destruct (Z.leb_spec a b)
         | |- context [?a =? ?b] => destruct (Z.eqb_spec a b)
         end; simpl; try reflexivity;
  repeat match type of H with
         | context [?a <=? ?b] => destruct (Z.leb_spec a b)
         | context [?a =? ?b] => destruct (Z.eqb_spec a b)
         end; simpl in H; try discriminate; lia.
Qed.

Lemma enemy_not_own color c :
  enemy_piece color c = true -> own_piece color c = false.
Proof.
  unfold enemy_piece, own_piece.
  destruct (pystr_eqb color (str "white")) eqn:Ew;
    destruct (pystr_eqb color (str "black")) eqn:Ek; simpl.
  - apply pystr_eqb_eq in Ew. apply pystr_eqb_eq in Ek.
    rewrite Ew in Ek. discriminate.
  - rewrite orb_false_r. intro H.
    destruct (isupper c) eqn:Eu; [|now rewrite andb_false_r].
    apply isupper_not_islower in Eu. congruence.
  - intro H. rewrite (isupper_not_islower _ H). apply andb_false_r.
  - discriminate.
Qed.

Lemma check_destination_wf b to_row to_file color :
  wf_board b = true -> 0 <= to_row < 8 -> 0 <= to_file < 8 ->
  check_destination b to_row to_file color
  = Ok (if own_piece color (look b to_row to_file)
        then (false, str "Destination occupied by own piece")
        else (true, str "Legal move")).
Proof.
  intros Hwf Hr Hf. unfold check_destination, own_piece.
  rewrite wf_cell by assumption. simpl bind.
  destruct (Ascii.eqb (look b to_row to_file) "."); simpl; [reflexivity|].
  destruct (pystr_eqb color (str "white") && isupper _); simpl; [reflexivity|].
  now destruct (pystr_eqb color (str "black") && islower _).
Qed.

Lemma step_is_sgn a b : a <> b -> (if b >? a then 1 else -1) = Z.sgn (b - a).
Proof.
  intro H. rewrite Z.gtb_ltb. destruct (Z.ltb_spec a b); lia.
Qed.

Lemma sgn_unit a b : a <> b -> Z.sgn (b - a) = 1 \/ Z.sgn (b - a) = -1.
Proof. lia. Qed.

Lemma diagonal_test ff fr tf tr :
  diagonal ff fr tf tr ->
  negb (Z.abs (tf - ff) =? Z.abs (tr - fr)) || (Z.abs (tf - ff) =? 0) = false.
Proof.
  intros [Hd Hne]. rewrite Hd, Z.eqb_refl. simpl.
  apply Z.eqb_neq. lia.
Qed.

Lemma not_diagonal_test ff fr tf tr :
  ~ diagonal ff fr tf tr ->
  negb (Z.abs (tf - ff) =? Z.abs (tr - fr)) || (Z.abs (tf - ff) =? 0) = true.
Proof.
  intro H. unfold diagonal in H.
  destruct (Z.eqb_spec (Z.abs (tf - ff)) (Z.abs (tr - fr))) as [E|E];
    [|reflexivity].
  simpl. apply Z.eqb_eq. lia.
Qed.

Section Path.

Variables (b : board) (ff fr tf tr : Z).
Hypothesis Hwf : wf_board b = true.
Hypothesis Hff : 0 <= ff < 8.
Hypothesis Htf : 0 <= tf < 8.
Hypothesis Hfr : 1 <= fr <= 8.
Hypothesis Htr : 1 <= tr <= 8.
Hypothesis Hdiag : diagonal ff fr tf tr.

(** Where the loop stands after [j] rounds. *)
Lemma loop_file j :
  ff + Z.sgn (tf - ff) + j * Z.sgn (tf - ff)
  = fst (on_the_way ff fr tf tr (j + 1)).
Proof. unfold on_the_way. cbn [fst]. ring. Qed.

Lemma loop_row j :
  8 - fr + - Z.sgn (tr - fr) + j * - Z.sgn (tr - fr)
  = 8 - snd (on_the_way ff fr tf tr (j + 1)).
Proof. unfold on_the_way. cbn [snd]. ring. Qed.

Lemma way_on_board k :
  0 < k < Z.abs (tf - ff) ->
  0 <= fst (on_the_way ff fr tf tr k) < 8
  /\ 0 <= 8 - snd (on_the_way ff fr tf tr k) < 8
  /\ fst (on_the_way ff fr tf tr k) <> tf.
Proof.
  destruct Hdiag as [Hd Hne]. intro Hk. unfold on_the_way. cbn [fst snd].
  assert (Hr : tr <> fr) by lia.
  destruct (sgn_unit ff tf ltac:(lia)) as [E1 | E1];
    destruct (sgn_unit fr tr ltac:(lia)) as [E2 | E2]; rewrite E1, E2; lia.
Qed.

Lemma scan_clear :
  path_clear b ff fr tf tr ->
  scan_path 8 b tf (Z.sgn (tf - ff)) (- Z.sgn (tr - fr))
    (ff + Z.sgn (tf - ff)) (8 - fr + - Z.sgn (tr - fr)) = Some (Ok None).
Proof.
  intro Hclear.
  set (n := Z.to_nat (Z.abs (tf - ff) - 1)).
  assert (Hn : Z.of_nat n = Z.abs (tf - ff) - 1)
    by (destruct Hdiag; unfold n; lia).
  rewrite (scan_path_run b tf (Z.sgn (tf - ff)) (- Z.sgn (tr - fr)) Hwf n 8).
  - replace (8 - n)%nat with (S (7 - n)) by lia.
    replace (ff + Z.sgn (tf - ff) + Z.of_nat n * Z.sgn (tf - ff)) with tf.
    + apply scan_path_stop.
    + rewrite Hn. destruct Hdiag as [_ Hne].
      destruct (sgn_unit ff tf ltac:(lia)) as [E | E]; rewrite E; lia.
  - lia.
  - intros j Hj.
    rewrite loop_file, loop_row.
    destruct (way_on_board (j + 1) ltac:(lia)) as (H1 & H2 & H3).
    repeat split; try lia.
    apply (Hclear (j + 1)). lia.
Qed.

Lemma scan_blocked k :
  first_blocker b ff fr tf tr k ->
  scan_path 8 b tf (Z.sgn (tf - ff)) (- Z.sgn (tr - fr))
    (ff + Z.sgn (tf - ff)) (8 - fr + - Z.sgn (tr - fr))
  = Some (Ok (Some (fst (on_the_way ff fr tf tr k),
                    8 - snd (on_the_way ff fr tf tr k)))).
Proof.
  intros (Hk & Hocc & Hbefore).
  set (n := Z.to_nat (k - 1)).
  assert (Hn : Z.of_nat n = k - 1) by (unfold n; lia).
  rewrite (scan_path_run b tf (Z.sgn (tf - ff)) (- Z.sgn (tr - fr)) Hwf n 8).
  - replace (8 - n)%nat with (S (7 - n)) by lia.
    rewrite loop_file, loop_row.
    replace (Z.of_nat n + 1) with k by lia.
    destruct (way_on_board k Hk) as (H1 & H2 & H3).
    now apply scan_path_hit.
  - lia.
  - intros j Hj.
    rewrite loop_file, loop_row.
    destruct (way_on_board (j + 1) ltac:(lia)) as (H1 & H2 & H3).
    repeat split; try lia.
    apply (Hbefore (j + 1)). lia.
Qed.

End Path.

(** The three ways through [can_bishop_move_to], on a well-formed board and
    for squares that are on it. *)
Section Ways.

Variables (b : board) (from_square to_square color : pystr) (ff fr tf tr : Z).
Hypothesis Hwf : wf_board b = true.
Hypothesis Hparse : parse_squares from_square to_square = Ok (ff, fr, tf, tr).
Hypothesis Hfr : 1 <= fr <= 8.
Hypothesis Htr : 1 <= tr <= 8.

Lemma parsed_files : 0 <= ff < 8 /\ 0 <= tf < 8.
Proof using Hparse.
  clear Hfr Htr. revert Hparse. unfold parse_squares.
  destruct (getitem from_square 0) as [c0|]; [|discriminate]. simpl bind.
  destruct (index files c0) as [i|] eqn:Ei; [|discriminate]. simpl bind.
  destruct (getitem from_square 1) as [c1|]; [|discriminate]. simpl bind.
  destruct (int_of_char c1) as [r1|]; [|discriminate]. simpl bind.
  destruct (getitem to_square 0) as [c2|]; [|discriminate]. simpl bind.
  destruct (index files c2) as [j|] eqn:Ej; [|discriminate]. simpl bind.
  destruct (getitem to_square 1) as [c3|]; [|discriminate]. simpl bind.
  destruct (int_of_char c3) as [r3|]; [|discriminate]. simpl bind.
  intros [= <- <- <- <-].
  apply index_files in Ei. apply index_files in Ej. tauto.
Qed.

Lemma way_not_diagonal :
  ~ diagonal ff fr tf tr ->
  can_bishop_move_to b from_square to_square color
  = Some (Ok (false, str "Not a diagonal move")).
Proof.
  intro Hnd. unfold can_bishop_move_to, can_bishop_move_to_fuel.
  rewrite Hparse. cbv beta iota zeta.
  now rewrite not_diagonal_test.
Qed.

Lemma way_clear :
  diagonal ff fr tf tr -> path_clear b ff fr tf tr ->
  can_bishop_move_to b from_square to_square color
  = Some (Ok (if own_piece color (occupant b (tf, tr))
              then (false, str "Destination occupied by own piece")
              else (true, str "Legal move"))).
Proof.
  intros Hd Hclear. destruct parsed_files as [Hff Htf].
  unfold can_bishop_move_to, can_bishop_move_to_fuel.
  rewrite Hparse. cbv beta iota zeta.
  rewrite diagonal_test by assumption.
  destruct Hd as [Habs Hne].
  rewrite !step_is_sgn by lia.
  rewrite scan_clear by (assumption || now split).
  rewrite check_destination_wf by (assumption || lia).
  reflexivity.
Qed.

Lemma way_blocked k :
  diagonal ff fr tf tr -> first_blocker b ff fr tf tr k ->
  can_bishop_move_to b from_square to_square color
  = Some (Ok (false,
              str "Path blocked at "
              ++ square_name (fst (on_the_way ff fr tf tr k))
                             (snd (on_the_way ff fr tf tr k)))).
Proof.
  intros Hd Hblock. destruct parsed_files as [Hff Htf].
  unfold can_bishop_move_to, can_bishop_move_to_fuel.
  rewrite Hparse. cbv beta iota zeta.
  rewrite diagonal_test by assumption.
  pose proof Hd as [Habs Hne].
  rewrite !step_is_sgn by lia.
  rewrite (scan_blocked b ff fr tf tr Hwf Hff Htf Hfr Htr Hd k Hblock).
  destruct Hblock as (Hk & _).
  destruct (way_on_board ff fr tf tr Hff Htf Hfr Htr Hd k Hk) as (H1 & H2 & H3).
  rewrite getitem_files by assumption. cbn [bind].
  unfold square_name.
  replace (8 - (8 - snd (on_the_way ff fr tf tr k)))
    with (snd (on_the_way ff fr tf tr k)) by lia.
  reflexivity.
Qed.

End Ways.

(** The bound of eight rounds is never reached, on any board. *)
Lemma scan_path_returns b to_file fs rs :
  forall (n fuel : nat) (cf cr : Z),
    cf + Z.of_nat n * fs = to_file -> (n < fuel)%nat ->
    scan_path fuel b to_file fs rs cf cr <> None.
Proof.
  induction n as [|n IH]; intros fuel cf cr Hend Hfuel;
    (destruct fuel as [|fuel]; [lia|]); cbn [scan_path].
  - replace (cf =? to_file) with true by (symmetry; apply Z.eqb_eq; lia).
    cbn [negb]. discriminate.
  - destruct (cf =? to_file); cbn [negb]; [discriminate|].
    destruct (cell b cr cf) as [c|e]; [|discriminate].
    destruct (negb (Ascii.eqb c ".")); [discriminate|].
    apply IH; lia.
Qed.

Lemma can_bishop_move_to_returns b from_square to_square color :
  can_bishop_move_to b from_square to_square color <> None.
Proof.
  unfold can_bishop_move_to, can_bishop_move_to_fuel.
  destruct (parse_squares from_square to_square)
    as [[[[ff fr] tf] tr]|e] eqn:Hparse; [|cbv iota; discriminate].
  destruct (parsed_files _ _ _ _ _ _ Hparse) as [Hff Htf].
  cbv beta iota zeta.
  destruct (negb (Z.abs (tf - ff) =? Z.abs (tr - fr)) || (Z.abs (tf - ff) =? 0))
    eqn:Hd; cbv iota; [discriminate|].
  apply orb_false_iff in Hd as [_ Hne]. apply Z.eqb_neq in Hne.
  rewrite (step_is_sgn ff tf) by lia.
  assert (Hscan :
            scan_path 8 b tf (Z.sgn (tf - ff))
              (- (if tr >? fr then 1 else -1))
              (ff + Z.sgn (tf - ff))
              (8 - fr + - (if tr >? fr then 1 else -1)) <> None).
  { apply (scan_path_returns _ _ _ _ (Z.to_nat (Z.abs (tf - ff) - 1)));
      [|lia].
    destruct (sgn_unit ff tf ltac:(lia)) as [E | E]; rewrite E; lia. }
  destruct (scan_path 8 b tf _ _ _ _) as [[[[f r]|]|e]|] eqn:Es;
    try discriminate.
  congruence.
Qed.

(** ** Loops that only append *)

Lemma for_each_ext {S} (body1 body2 : Z -> S -> result S) xs :
  (forall x s, body1 x s = body2 x s) ->
  forall s, for_each xs body1 s = for_each xs body2 s.
Proof.
  intro H. induction xs as [|x xs IH]; intro s; simpl; [reflexivity|].
  rewrite H. destruct (body2 x s); simpl; auto.
Qed.

Section Appending.

Variable A : Type.
Variable gen : Z -> result (list A).

Lemma for_each_appending xs : forall s,
  for_each xs (appending gen) s
  = (ms <- for_each xs (appending gen) [] ;; Ok (s ++ ms)).
Proof.
  induction xs as [|x xs IH]; intro s; simpl.
  - now rewrite app_nil_r.
  - unfold appending at 1 3. destruct (gen x) as [ms|e]; simpl; [|reflexivity].
    rewrite (IH (s ++ ms)), (IH ms).
    destruct (for_each xs (appending gen) []) as [rest|e]; simpl; [|reflexivity].
    now rewrite app_assoc.
Qed.

(** The result of such a loop is the List.concatenation of what each round
    generates. *)
Lemma for_each_concat xs all :
  for_each xs (appending gen) [] = Ok all <->
  exists parts, Forall2 (fun x ms => gen x = Ok ms) xs parts
                /\ all = List.concat parts.
Proof.
  revert all. induction xs as [|x xs IH]; intro all; simpl.
  - split.
    + intros [= <-]. exists []. split; [constructor | reflexivity].
    + intros (parts & HF & ->). inversion HF. reflexivity.
  - unfold appending at 1. split.
    + destruct (gen x) as [ms|e] eqn:Eg; simpl; [|discriminate].
      rewrite for_each_appending.
      destruct (for_each xs (appending gen) []) as [rest|e] eqn:Er; simpl;
        [|discriminate].
      intros [= <-].
      destruct (proj1 (IH rest) eq_refl) as (parts & HF & ->).
      exists (ms :: parts). split; [now constructor | reflexivity].
    + intros (parts & HF & ->). inversion HF as [|? ms ? parts' Hg HF']; subst.
      rewrite Hg. simpl. rewrite for_each_appending.
      rewrite (proj2 (IH (List.concat parts')))
        by (exists parts'; now split).
      reflexivity.
Qed.

End Appending.

Lemma Forall2_in_right {A B} (P : A -> B -> Prop) xs ys y :
  Forall2 P xs ys -> In y ys -> exists x, In x xs /\ P x y.
Proof.
  induction 1 as [|x y' xs ys Hp HF IH]; simpl; [tauto|].
  intros [<- | Hin].
  - exists x. auto.
  - destruct (IH Hin) as (x' & Hx & Hp'). exists x'. auto.
Qed.

Lemma Forall2_in_left {A B} (P : A -> B -> Prop) xs ys x :
  Forall2 P xs ys -> In x xs -> exists y, In y ys /\ P x y.
Proof.
  induction 1 as [|x' y xs ys Hp HF IH]; simpl; [tauto|].
  intros [<- | Hin].
  - exists y. auto.
  - destruct (IH Hin) as (y' & Hy & Hp'). exists y'. auto.
Qed.

Lemma Forall2_total {A B} (P : A -> B -> Prop) xs :
  (forall x, In x xs -> exists y, P x y) -> exists ys, Forall2 P xs ys.
Proof.
  induction xs as [|x xs IH]; intro H.
  - exists []. constructor.
  - destruct (H x (or_introl eq_refl)) as (y & Hy).
    destruct IH as (ys & Hys); [intros; apply H; now right|].
    exists (y :: ys). now constructor.
Qed.

Lemma range8_iff x : In x range8 <-> 0 <= x < 8.
Proof. unfold range8. simpl. lia. Qed.

(** ** The pawn loop *)

Lemma pawn_step_appends b pawn direction start_rank rank_idx file_idx vm :
  pawn_step b pawn direction start_rank rank_idx file_idx vm
  = (ms <- pawn_step b pawn direction start_rank rank_idx file_idx [] ;;
     Ok (vm ++ ms)).
Proof.
  unfold pawn_step.
  destruct (cell b rank_idx file_idx) as [c|e]; cbn [bind]; [|reflexivity].
  destruct (Ascii.eqb c pawn); [|cbn [bind]; now rewrite app_nil_r].
  destruct (getitem files file_idx) as [file|e]; cbn [bind]; [|reflexivity].
  destruct ((0 <=? rank_idx + direction) && (rank_idx + direction <? 8));
    [|cbn [bind]; now rewrite app_nil_r].
  destruct (cell b (rank_idx + direction) file_idx) as [c1|e]; cbn [bind];
    [|reflexivity].
  destruct (Ascii.eqb c1 "."); [|cbn [bind]; now rewrite app_nil_r].
  destruct (rank_idx =? start_rank); [|reflexivity].
  destruct (cell b (rank_idx + 2 * direction) file_idx) as [c2|e]; cbn [bind];
    [|reflexivity].
  destruct (Ascii.eqb c2 "."); [|reflexivity].
  cbn [app]. now rewrite <- app_assoc.
Qed.

Lemma analyze_as_appending b color :
  analyze_pawn_moves b color
  = for_each range8 (appending (row_moves b color)) [].
Proof.
  unfold analyze_pawn_moves. apply for_each_ext. intros rank_idx vm.
  unfold appending at 1, row_moves.
  rewrite <- for_each_appending.
  apply for_each_ext. intros file_idx vm'.
  unfold appending, moves_at. apply pawn_step_appends.
Qed.

Lemma analyze_in b color all m :
  analyze_pawn_moves b color = Ok all -> In m all ->
  exists rank_idx file_idx ms,
    0 <= rank_idx < 8 /\ 0 <= file_idx < 8
    /\ moves_at b color rank_idx file_idx = Ok ms /\ In m ms.
Proof.
  rewrite analyze_as_appending. intros Hall Hin.
  apply for_each_concat in Hall as (rows & Hrows & ->).
  apply in_concat in Hin as (row & Hrow & Hin).
  destruct (Forall2_in_right _ _ _ _ Hrows Hrow) as (rank_idx & Hr & Hgen).
  apply for_each_concat in Hgen as (cells & Hcells & ->).
  apply in_concat in Hin as (ms & Hms & Hin).
  destruct (Forall2_in_right _ _ _ _ Hcells Hms) as (file_idx & Hf & Hgen).
  exists rank_idx, file_idx, ms.
  apply range8_iff in Hr. apply range8_iff in Hf. auto.
Qed.

Lemma analyze_total b color :
  (forall rank_idx file_idx, 0 <= rank_idx < 8 -> 0 <= file_idx < 8 ->
     exists ms, moves_at b color rank_idx file_idx = Ok ms) ->
  exists all,
    analyze_pawn_moves b color = Ok all
    /\ forall rank_idx file_idx ms,
         0 <= rank_idx < 8 -> 0 <= file_idx < 8 ->
         moves_at b color rank_idx file_idx = Ok ms -> incl ms all.
Proof.
  intro Hok. rewrite analyze_as_appending.
  assert (Hrow : forall rank_idx, In rank_idx range8 ->
            exists ms, row_moves b color rank_idx = Ok ms).
  { intros rank_idx Hr. apply range8_iff in Hr.
    destruct (Forall2_total
                (fun x ms => moves_at b color rank_idx x = Ok ms) range8)
      as (cells & Hcells).
    - intros f Hf. apply range8_iff in Hf. now apply Hok.
    - exists (List.concat cells). apply for_each_concat. now exists cells. }
  destruct (Forall2_total _ _ Hrow) as (rows & Hrows).
  exists (List.concat rows). split.
  - apply for_each_concat. now exists rows.
  - intros rank_idx file_idx ms Hr Hf Hms m Hm.
    apply range8_iff in Hr. apply range8_iff in Hf.
    destruct (Forall2_in_left _ _ _ _ Hrows Hr) as (row & Hin_row & Hgen).
    apply for_each_concat in Hgen as (cells & Hcells & ->).
    destruct (Forall2_in_left _ _ _ _ Hcells Hf) as (ms' & Hms' & Hgen).
    rewrite Hms in Hgen. injection Hgen as <-.
    apply in_concat. exists (List.concat cells). split; [assumption|].
    apply in_concat. now exists ms.
Qed.

(** What one square contributes, on any board. *)
Lemma moves_at_in b color rank_idx file_idx ms m :
  0 <= file_idx < 8 ->
  moves_at b color rank_idx file_idx = Ok ms -> In m ms ->
  cell b rank_idx file_idx = Ok (pawn_of color)
  /\ exists k, (k = 1 \/ k = 2)
      /\ m = square_name file_idx (8 - (rank_idx + k * direction_of color)).
Proof.
  intros Hf. unfold moves_at, pawn_step, square_name.
  destruct (cell b rank_idx file_idx) as [c|e]; cbn [bind]; [|discriminate].
  destruct (Ascii.eqb_spec c (pawn_of color)) as [-> | _];
    [|intros [= <-] H; destruct H].
  rewrite getitem_files by assumption. cbn [bind].
  set (file := nth (Z.to_nat file_idx) files "?"%char).
  set (d := direction_of color).
  destruct ((0 <=? rank_idx + d) && (rank_idx + d <? 8)); [|intros [= <-] H; destruct H].
  destruct (cell b (rank_idx + d) file_idx) as [c1|e]; cbn [bind];
    [|discriminate].
  destruct (Ascii.eqb c1 "."); [|intros [= <-] H; destruct H].
  assert (H1 : forall m', m' = [file] ++ str_of_int (8 - (rank_idx + d)) ->
            exists k, (k = 1 \/ k = 2)
              /\ m' = [file] ++ str_of_int (8 - (rank_idx + k * d))).
  { intros m' ->. exists 1. split; [now left|]. now rewrite Z.mul_1_l. }
  assert (H2 : forall m', m' = [file] ++ str_of_int (8 - (rank_idx + 2 * d)) ->
            exists k, (k = 1 \/ k = 2)
              /\ m' = [file] ++ str_of_int (8 - (rank_idx + k * d))).
  { intros m' ->. exists 2. split; [now right | reflexivity]. }
  destruct (rank_idx =? start_rank_of color).
  - destruct (cell b (rank_idx + 2 * d) file_idx) as [c2|e]; cbn [bind];
      [|discriminate].
    destruct (Ascii.eqb c2 "."); intros [= <-]; cbn [app In]; intro H;
      repeat (destruct H as [<- | H]; auto); destruct H.
  - intros [= <-]. cbn [app In]. intros [<- | H]; [auto | destruct H].
Qed.

(** On a well-formed board every round of the loop returns. *)
Lemma moves_at_total b color rank_idx file_idx :
  wf_board b = true -> 0 <= rank_idx < 8 -> 0 <= file_idx < 8 ->
  exists ms, moves_at b color rank_idx file_idx = Ok ms.
Proof.
  intros Hwf Hr Hf. unfold moves_at, pawn_step.
  rewrite wf_cell by assumption. cbn [bind].
  destruct (Ascii.eqb _ (pawn_of color)); [|eexists; reflexivity].
  rewrite getitem_files by assumption. cbn [bind].
  destruct ((0 <=? rank_idx + direction_of color)
            && (rank_idx + direction_of color <? 8)) eqn:Hon;
    [|eexists; reflexivity].
  apply (on_board_iff (rank_idx + direction_of color)) in Hon.
  rewrite wf_cell by assumption. cbn [bind].
  destruct (Ascii.eqb _ "."); [|eexists; reflexivity].
  destruct (Z.eqb_spec rank_idx (start_rank_of color)) as [Hs|_];
    [|eexists; reflexivity].
  assert (Htwo : 0 <= rank_idx + 2 * direction_of color < 8).
  { revert Hs Hon. unfold start_rank_of, direction_of.
    destruct (pystr_eqb color (str "white")); lia. }
  rewrite wf_cell by assumption. cbn [bind].
  destruct (Ascii.eqb _ "."); eexists; reflexivity.
Qed.

(** A pawn on its home rank. *)
Lemma moves_at_home b color file_idx :
  wf_board b = true -> 0 <= file_idx < 8 ->
  let r := start_rank_of color in
  let d := direction_of color in
  look b r file_idx = pawn_of color ->
  moves_at b color r file_idx
  = Ok (if Ascii.eqb (look b (r + d) file_idx) "."
        then square_name file_idx (8 - (r + d))
             :: (if Ascii.eqb (look b (r + 2 * d) file_idx) "."
                 then [square_name file_idx (8 - (r + 2 * d))] else [])
        else []).
Proof.
  intros Hwf Hf r d Hp.
  assert (Hr : 0 <= r < 8 /\ 0 <= r + d < 8 /\ 0 <= r + 2 * d < 8).
  { unfold r, d, start_rank_of, direction_of.
    destruct (pystr_eqb color (str "white")); lia. }
  unfold moves_at, pawn_step. fold r. fold d.
  rewrite wf_cell by (assumption || lia). cbn [bind].
  rewrite Hp, Ascii.eqb_refl.
  rewrite getitem_files by assumption. cbn [bind].
  replace ((0 <=? r + d) && (r + d <? 8)) with true
    by (symmetry; apply (on_board_iff (r + d)); lia).
  rewrite wf_cell by (assumption || lia). cbn [bind].
  destruct (Ascii.eqb (look b (r + d) file_idx) "."); [|reflexivity].
  rewrite Z.eqb_refl.
  rewrite wf_cell by (assumption || lia). cbn [bind].
  unfold square_name.
  destruct (Ascii.eqb (look b (r + 2 * d) file_idx) "."); reflexivity.
Qed.

Lemma square_name_rank file_idx r1 r2 :
  square_name file_idx r1 = square_name file_idx r2 ->
  str_of_int r1 = str_of_int r2.
Proof. unfold square_name. apply app_inv_head. Qed.

(** * Properties of [validate_en_passant] *)

(** C1, as the code has it.  For a six-field state string whose en-passant
    field names a square and whose placement decodes to eight rows of eight
    cells, the validator returns, and the en-passant field of its output is
    the input's square exactly when [keeps] holds: the target is on rank 3
    (side to move not ['w']) with a white pawn on rank 4 in the target's file
    and a black pawn on rank 4 in at least one adjacent file, or on rank 6
    (side to move ['w']) with a black pawn on rank 5 in the target's file and
    a white pawn on rank 5 in at least one adjacent file.  In every other
    case the field is ['-']. *)
Theorem en_passant_kept_iff_capturable s bp ac ca ep hm fm b :
  split s = [bp; ac; ca; ep; hm; fm] ->
  names_square ep = true ->
  parse_board bp = Ok b ->
  wf_board b = true ->
  exists out,
    validate_en_passant s = Ok out
    /\ en_passant_field out = Some (if keeps b ac ep then ep else str "-").
Proof.
  intros Es Hsq Eb Hwf.
  destruct (six_fields _ _ _ _ _ _ _ Es) as (Fb & Fa & Fc & Fe & Fh & Ff).
  rewrite (validate_six _ _ _ _ _ _ _ Es).
  rewrite (validate_fields_wf _ _ _ _ _ _ b Eb Hwf (or_intror Hsq)).
  rewrite (names_square_not_dash _ Hsq).
  eexists. split; [reflexivity|].
  apply en_passant_field_join6; auto.
  destruct (keeps b ac ep); [assumption | apply dash_is_field].
Qed.

Lemma en_passant_kept_iff_capturable_witness :
  exists out,
    validate_en_passant
      (str "rnbqkbnr/ppp1pppp/8/8/3pP3/8/PPPP1PPP/RNBQKBNR b KQkq e3 0 3")
    = Ok out
    /\ en_passant_field out = Some (str "e3").
Proof.
  exact (en_passant_kept_iff_capturable
           (str "rnbqkbnr/ppp1pppp/8/8/3pP3/8/PPPP1PPP/RNBQKBNR b KQkq e3 0 3")
           (str "rnbqkbnr/ppp1pppp/8/8/3pP3/8/PPPP1PPP/RNBQKBNR")
           (str "b") (str "KQkq") (str "e3") (str "0") (str "3")
           (map str ["rnbqkbnr"; "ppp.pppp"; "........"; "........";
                     "...pP..."; "........"; "PPPP.PPP"; "RNBQKBNR"]%string)
           eq_refl eq_refl eq_refl eq_refl).
Defined.

(** C1 as worded does not hold.  After 1.Nf3 d5 2.Ng1 d4 3.e4 the
    target e3 is kept although only one of the two adjacent files (d, not f)
    holds a black pawn on rank 4: a pawn on each adjacent file is not
    required. *)
Lemma each_adjacent_not_required :
  exists b out,
    parse_board (str "rnbqkbnr/ppp1pppp/8/8/3pP3/8/PPPP1PPP/RNBQKBNR") = Ok b
    /\ names_square (str "e3") = true
    /\ validate_en_passant
         (str "rnbqkbnr/ppp1pppp/8/8/3pP3/8/PPPP1PPP/RNBQKBNR b KQkq e3 0 3")
       = Ok out
    /\ en_passant_field out = Some (str "e3")
    /\ keeps_spec b (str "b") (str "e3") = false.
Proof.
  do 2 eexists. repeat split; vm_compute; reflexivity.
Qed.

(** C2, as the code has it.  With a white pawn on e4 and Black to move, a
    supplied target e3 is kept exactly when a black pawn stands on d4 or on
    f4; what stands on e5 plays no part.  With no white pawn on a4 (the
    a-pawn advanced one square only), a supplied target a3 is replaced by
    ['-'] whatever stands on the adjacent files. *)
Theorem e3_needs_pawn_on_d4_or_f4 s bp ca ep hm fm b :
  split s = [bp; str "b"; ca; ep; hm; fm] ->
  parse_board bp = Ok b ->
  wf_board b = true ->
  (ep = str "e3" -> piece_at b 4 4 "P" = true ->
   validate_en_passant s
   = Ok (join6 bp (str "b") ca
           (if piece_at b 4 3 "p" || piece_at b 4 5 "p"
            then str "e3" else str "-") hm fm))
  /\ (ep = str "a3" -> piece_at b 4 0 "P" = false ->
      validate_en_passant s = Ok (join6 bp (str "b") ca (str "-") hm fm)).
Proof.
  intros Es Eb Hwf.
  rewrite (validate_six _ _ _ _ _ _ _ Es).
  split; intros -> Hp.
  - rewrite (validate_fields_wf bp (str "b") ca (str "e3") hm fm b Eb Hwf
               (or_intror eq_refl)).
    change (pystr_eqb (str "e3") (str "-")) with false. cbv iota.
    unfold keeps, keeps_with.
    change (pystr_eqb (str "b") (str "w")) with false. cbv iota.
    change (target_rank (str "e3") =? 3) with true.
    change (target_file (str "e3")) with 4.
    rewrite Hp. reflexivity.
  - rewrite (validate_fields_wf bp (str "b") ca (str "a3") hm fm b Eb Hwf
               (or_intror eq_refl)).
    change (pystr_eqb (str "a3") (str "-")) with false. cbv iota.
    unfold keeps, keeps_with.
    change (pystr_eqb (str "b") (str "w")) with false. cbv iota.
    change (target_rank (str "a3") =? 3) with true.
    change (target_file (str "a3")) with 0.
    rewrite Hp. reflexivity.
Qed.

Lemma e3_needs_pawn_on_d4_or_f4_witness :
  validate_en_passant
    (str "rnbqkbnr/pppp1ppp/8/4p3/4P3/8/PPPP1PPP/RNBQKBNR b KQkq e3 0 2")
  = Ok (str "rnbqkbnr/pppp1ppp/8/4p3/4P3/8/PPPP1PPP/RNBQKBNR b KQkq - 0 2")
  /\ validate_en_passant
       (str "rnbqkbnr/pppp1ppp/8/4p3/8/P7/1PPPPPPP/RNBQKBNR b KQkq a3 0 2")
     = Ok (str "rnbqkbnr/pppp1ppp/8/4p3/8/P7/1PPPPPPP/RNBQKBNR b KQkq - 0 2").
Proof.
  split.
  - exact (proj1 (e3_needs_pawn_on_d4_or_f4
             (str "rnbqkbnr/pppp1ppp/8/4p3/4P3/8/PPPP1PPP/RNBQKBNR b KQkq e3 0 2")
             (str "rnbqkbnr/pppp1ppp/8/4p3/4P3/8/PPPP1PPP/RNBQKBNR")
             (str "KQkq") (str "e3") (str "0") (str "2")
             (map str ["rnbqkbnr"; "pppp.ppp"; "........"; "....p...";
                       "....P..."; "........"; "PPPP.PPP"; "RNBQKBNR"]%string)
             eq_refl eq_refl eq_refl) eq_refl eq_refl).
  - exact (proj2 (e3_needs_pawn_on_d4_or_f4
             (str "rnbqkbnr/pppp1ppp/8/4p3/8/P7/1PPPPPPP/RNBQKBNR b KQkq a3 0 2")
             (str "rnbqkbnr/pppp1ppp/8/4p3/8/P7/1PPPPPPP/RNBQKBNR")
             (str "KQkq") (str "a3") (str "0") (str "2")
             (map str ["rnbqkbnr"; "pppp.ppp"; "........"; "....p...";
                       "........"; "P......."; ".PPPPPPP"; "RNBQKBNR"]%string)
             eq_refl eq_refl eq_refl) eq_refl eq_refl).
Defined.

(** C2 as worded does not hold.  After e2-e4 with a black pawn on e5
    and none on d4 or f4, the supplied target e3 is not returned: the output
    carries ['-']. *)
Lemma e5_pawn_does_not_keep_e3 :
  exists out,
    validate_en_passant
      (str "rnbqkbnr/pppp1ppp/8/4p3/4P3/8/PPPP1PPP/RNBQKBNR b KQkq e3 0 2")
    = Ok out
    /\ en_passant_field out = Some (str "-")
    /\ en_passant_field out <> Some (str "e3").
Proof.
  eexists. split; [vm_compute; reflexivity|].
  split; [vm_compute; reflexivity | vm_compute; discriminate].
Qed.

(** C5, as the code has it.  An input that does not split into exactly six
    whitespace-separated fields is returned unchanged: no exception is
    raised, and nothing of it is decoded. *)
Theorem not_six_fields_returned_unchanged s :
  List.length (split s) <> 6%nat -> validate_en_passant s = Ok s.
Proof. apply validate_other. Qed.

Lemma not_six_fields_returned_unchanged_witness :
  validate_en_passant (str "8/8 w") = Ok (str "8/8 w").
Proof.
  apply (not_six_fields_returned_unchanged (str "8/8 w")).
  vm_compute. discriminate.
Defined.

(** C5 as worded does not hold.  The two-field input ["8/8 w"] is not
    rejected: the validator returns a value for it, the input itself, and
    raises nothing. *)
Lemma short_input_not_rejected :
  List.length (split (str "8/8 w")) <> 6%nat
  /\ validate_en_passant (str "8/8 w") = Ok (str "8/8 w")
  /\ forall e, validate_en_passant (str "8/8 w") <> Raise e.
Proof.
  split; [vm_compute; discriminate|].
  split; [vm_compute; reflexivity|].
  intros e. vm_compute. discriminate.
Qed.

Lemma kept_shape_named ac ep f rest :
  names_square ep = true ->
  ep = f :: rank_digit ac :: rest ->
  target_rank ep = (if pystr_eqb ac (str "w") then 6 else 3).
Proof.
  intros _ ->. unfold target_rank, rank_digit.
  now destruct (pystr_eqb ac (str "w")).
Qed.

(** C6, as the code has it.  For a six-field state string whose en-passant
    field is ['-'] or names a square, the en-passant field of whatever the
    validator returns is ['-'] or names a square on rank 6 when the side to
    move is ['w'] and on rank 3 otherwise; and the validator does return
    when the placement decodes to eight rows of eight cells. *)
Theorem kept_target_rank s bp ac ca ep hm fm :
  split s = [bp; ac; ca; ep; hm; fm] ->
  ep = str "-" \/ names_square ep = true ->
  (forall out, validate_en_passant s = Ok out ->
     exists ep',
       en_passant_field out = Some ep'
       /\ (ep' = str "-"
           \/ (names_square ep' = true
               /\ target_rank ep'
                  = (if pystr_eqb ac (str "w") then 6 else 3))))
  /\ (forall b, parse_board bp = Ok b -> wf_board b = true ->
        exists out, validate_en_passant s = Ok out).
Proof.
  intros Es Hep.
  destruct (six_fields _ _ _ _ _ _ _ Es) as (Fb & Fa & Fc & Fe & Fh & Ff).
  rewrite (validate_six _ _ _ _ _ _ _ Es). split.
  - intros out Hout.
    destruct (validate_fields_out _ _ _ _ _ _ _ Hout)
      as (ep' & -> & _ & [-> | [-> (f & rest & Hshape & Hf)]]).
    + exists (str "-"). split; [|now left].
      apply en_passant_field_join6; auto using dash_is_field.
    + exists ep. split; [now apply en_passant_field_join6|].
      destruct Hep as [-> | Hsq]; [now left | right].
      split; [assumption|]. now apply (kept_shape_named ac ep f rest).
  - intros b Eb Hwf. eexists.
    apply (validate_fields_wf _ _ _ _ _ _ b Eb Hwf Hep).
Qed.

Lemma kept_target_rank_witness :
  (forall out,
     validate_en_passant
       (str "rnbqkbnr/ppp1pppp/8/8/3pP3/8/PPPP1PPP/RNBQKBNR b KQkq e3 0 3")
     = Ok out ->
     exists ep',
       en_passant_field out = Some ep'
       /\ (ep' = str "-"
           \/ (names_square ep' = true /\ target_rank ep' = 3)))
  /\ exists out,
       validate_en_passant
         (str "rnbqkbnr/ppp1pppp/8/8/3pP3/8/PPPP1PPP/RNBQKBNR b KQkq e3 0 3")
       = Ok out.
Proof.
  destruct (kept_target_rank
              (str "rnbqkbnr/ppp1pppp/8/8/3pP3/8/PPPP1PPP/RNBQKBNR b KQkq e3 0 3")
              (str "rnbqkbnr/ppp1pppp/8/8/3pP3/8/PPPP1PPP/RNBQKBNR")
              (str "b") (str "KQkq") (str "e3") (str "0") (str "3")
              eq_refl (or_intror eq_refl)) as [H1 H2].
  split; [exact H1|].
  exact (H2 (map str ["rnbqkbnr"; "ppp.pppp"; "........"; "........";
                      "...pP..."; "........"; "PPPP.PPP"; "RNBQKBNR"]%string)
            eq_refl eq_refl).
Defined.

(** C6 as worded, for every six-field string, does not hold.  The
    validator reads the first two characters of the en-passant field only:
    the field ["e3zzz"] is kept as it is, and it is neither ['-'] nor the
    name of a square. *)
Lemma kept_target_with_trailing_text :
  exists out,
    validate_en_passant
      (str "rnbqkbnr/ppp1pppp/8/8/3pP3/8/PPPP1PPP/RNBQKBNR b KQkq e3zzz 0 3")
    = Ok out
    /\ en_passant_field out = Some (str "e3zzz")
    /\ str "e3zzz" <> str "-"
    /\ names_square (str "e3zzz") = false.
Proof.
  eexists. split; [vm_compute; reflexivity|].
  split; [vm_compute; reflexivity|].
  split; [discriminate | reflexivity].
Qed.

(** C8.  The validator is a function of its input, and running it on its
    own output changes nothing: an exception of the first run is the result
    of both sides, and a returned string is returned again. *)
Theorem validate_idempotent s :
  (out <- validate_en_passant s ;; validate_en_passant out)
  = validate_en_passant s
  /\ (forall r1 r2,
        validate_en_passant s = r1 -> validate_en_passant s = r2 -> r1 = r2).
Proof.
  split; [|congruence].
  destruct (Nat.eq_dec (List.length (split s)) 6) as [H6|H6].
  - destruct (split s) as [|bp [|ac [|ca [|ep [|hm [|fm [|x l]]]]]]] eqn:Es;
      try discriminate.
    destruct (six_fields _ _ _ _ _ _ _ Es) as (Fb & Fa & Fc & Fe & Fh & Ff).
    rewrite (validate_six _ _ _ _ _ _ _ Es).
    destruct (validate_fields bp ac ca ep hm fm) as [out|e] eqn:Ev;
      [|reflexivity].
    simpl bind.
    destruct (validate_fields_out _ _ _ _ _ _ _ Ev)
      as (ep' & -> & Hagain & Hep').
    rewrite (validate_six _ bp ac ca ep' hm fm); [assumption|].
    apply split_join6; auto.
    destruct Hep' as [-> | [-> _]]; [apply dash_is_field | assumption].
  - rewrite (validate_other _ H6). simpl. now apply validate_other.
Qed.

(** C9.  For an input that splits into six fields, whatever the validator
    returns splits into six fields again; placement, side to move, castling,
    halfmove and fullmove are the input's, and the en-passant field is the
    input's or ['-'].  The validator does return when the placement decodes
    to eight rows of eight cells and the en-passant field is ['-'] or names
    a square. *)
Theorem only_en_passant_field_changes s bp ac ca ep hm fm :
  split s = [bp; ac; ca; ep; hm; fm] ->
  (forall out, validate_en_passant s = Ok out ->
     exists ep',
       split out = [bp; ac; ca; ep'; hm; fm]
       /\ (ep' = ep \/ ep' = str "-"))
  /\ (forall b, parse_board bp = Ok b -> wf_board b = true ->
        ep = str "-" \/ names_square ep = true ->
        exists out, validate_en_passant s = Ok out).
Proof.
  intros Es.
  destruct (six_fields _ _ _ _ _ _ _ Es) as (Fb & Fa & Fc & Fe & Fh & Ff).
  rewrite (validate_six _ _ _ _ _ _ _ Es). split.
  - intros out Hout.
    destruct (validate_fields_out _ _ _ _ _ _ _ Hout)
      as (ep' & -> & _ & [-> | [-> _]]).
    + exists (str "-"). split; [|now right].
      apply split_join6; auto using dash_is_field.
    + exists ep. split; [|now left]. now apply split_join6.
  - intros b Eb Hwf Hep. eexists.
    apply (validate_fields_wf _ _ _ _ _ _ b Eb Hwf Hep).
Qed.

Lemma only_en_passant_field_changes_witness :
  (forall out,
     validate_en_passant
       (str "rnbqkbnr/pppp1ppp/8/4p3/8/P7/1PPPPPPP/RNBQKBNR   w KQkq e6 0 2")
     = Ok out ->
     exists ep',
       split out
       = [str "rnbqkbnr/pppp1ppp/8/4p3/8/P7/1PPPPPPP/RNBQKBNR"; str "w";
          str "KQkq"; ep'; str "0"; str "2"]
       /\ (ep' = str "e6" \/ ep' = str "-"))
  /\ exists out,
       validate_en_passant
         (str "rnbqkbnr/pppp1ppp/8/4p3/8/P7/1PPPPPPP/RNBQKBNR   w KQkq e6 0 2")
       = Ok out.
Proof.
  destruct (only_en_passant_field_changes
              (str "rnbqkbnr/pppp1ppp/8/4p3/8/P7/1PPPPPPP/RNBQKBNR   w KQkq e6 0 2")
              (str "rnbqkbnr/pppp1ppp/8/4p3/8/P7/1PPPPPPP/RNBQKBNR")
              (str "w") (str "KQkq") (str "e6") (str "0") (str "2")
              eq_refl) as [H1 H2].
  split; [exact H1|].
  exact (H2 (map str ["rnbqkbnr"; "pppp.ppp"; "........"; "....p...";
                      "........"; "P......."; ".PPPPPPP"; "RNBQKBNR"]%string)
            eq_refl eq_refl (or_intror eq_refl)).
Defined.

(** * Properties of [can_bishop_move_to] *)

Example bishop_e2_start :
  can_bishop_move_to
    (map str ["rnbqkbnr"; "pppppppp"; "........"; "........";
              "........"; "........"; "PPPPPPPP"; "RNBQKBNR"]%string)
    (str "f1") (str "e2") (str "white")
  = Some (Ok (false, str "Destination occupied by own piece")).
Proof. vm_compute. reflexivity. Qed.

Example bishop_e2_after_e4 :
  can_bishop_move_to
    (map str ["rnbqkbnr"; "pppp.ppp"; "........"; "....p...";
              "....P..."; "........"; "PPPP.PPP"; "RNBQKBNR"]%string)
    (str "f1") (str "e2") (str "white")
  = Some (Ok (true, str "Legal move")).
Proof. vm_compute. reflexivity. Qed.

Lemma diagonal_dec ff fr tf tr :
  diagonal ff fr tf tr \/ ~ diagonal ff fr tf tr.
Proof. unfold diagonal. lia. Qed.

Lemma blocker_not_clear b ff fr tf tr k :
  first_blocker b ff fr tf tr k -> ~ path_clear b ff fr tf tr.
Proof. intros (Hk & Hocc & _) Hclear. apply Hocc. now apply Hclear. Qed.

Lemma empty_not_own color : own_piece color "."%char = false.
Proof. reflexivity. Qed.

(** C3.  On a board of eight rows of eight cells, for a bishop move between
    two squares of the board that lie on a common diagonal: if some square
    strictly between origin and destination is occupied (by any piece), the
    check answers [False] with the reason ["Path blocked at"] followed by the
    first occupied square on the way; if every square strictly between is
    empty and the destination is empty or holds a piece of the other colour,
    the check answers [True], ["Legal move"]. *)
Theorem bishop_blocked_or_clear b from_square to_square color ff fr tf tr :
  wf_board b = true ->
  parse_squares from_square to_square = Ok (ff, fr, tf, tr) ->
  1 <= fr <= 8 -> 1 <= tr <= 8 ->
  diagonal ff fr tf tr ->
  ((exists k, 0 < k < Z.abs (tf - ff)
              /\ occupant b (on_the_way ff fr tf tr k) <> "."%char) ->
   exists k0,
     first_blocker b ff fr tf tr k0
     /\ can_bishop_move_to b from_square to_square color
        = Some (Ok (false,
                    str "Path blocked at "
                    ++ square_name (fst (on_the_way ff fr tf tr k0))
                                   (snd (on_the_way ff fr tf tr k0)))))
  /\ (path_clear b ff fr tf tr ->
      occupant b (tf, tr) = "."%char
      \/ enemy_piece color (occupant b (tf, tr)) = true ->
      can_bishop_move_to b from_square to_square color
      = Some (Ok (true, str "Legal move"))).
Proof.
  intros Hwf Hparse Hfr Htr Hd. split.
  - intros (k & Hk & Hocc).
    destruct (clear_or_blocked b ff fr tf tr) as [Hclear | (k0 & Hk0)].
    + exfalso. apply Hocc. now apply Hclear.
    + exists k0. split; [assumption|].
      now apply (way_blocked b from_square to_square color ff fr tf tr).
  - intros Hclear Hdest.
    rewrite (way_clear b from_square to_square color ff fr tf tr) by assumption.
    destruct Hdest as [-> | He].
    + now rewrite empty_not_own.
    + now rewrite (enemy_not_own _ _ He).
Qed.

Lemma bishop_blocked_or_clear_witness :
  (exists k0,
     first_blocker
       (map str ["rnbqkbnr"; "pppppppp"; "........"; "........";
                 "........"; "........"; "PPPPPPPP"; "RNBQKBNR"]%string)
       2 1 4 3 k0
     /\ can_bishop_move_to
          (map str ["rnbqkbnr"; "pppppppp"; "........"; "........";
                    "........"; "........"; "PPPPPPPP"; "RNBQKBNR"]%string)
          (str "c1") (str "e3") (str "white")
        = Some (Ok (false,
                    str "Path blocked at "
                    ++ square_name (fst (on_the_way 2 1 4 3 k0))
                                   (snd (on_the_way 2 1 4 3 k0)))))
  /\ can_bishop_move_to
       (map str ["rnbqkbnr"; "pppp.ppp"; "........"; "....p...";
                 "....P..."; "........"; "PPPP.PPP"; "RNBQKBNR"]%string)
       (str "f1") (str "c4") (str "white")
     = Some (Ok (true, str "Legal move")).
Proof.
  split.
  - apply (bishop_blocked_or_clear
             (map str ["rnbqkbnr"; "pppppppp"; "........"; "........";
                       "........"; "........"; "PPPPPPPP"; "RNBQKBNR"]%string)
             (str "c1") (str "e3") (str "white") 2 1 4 3);
      try reflexivity; try lia.
    + split; [reflexivity | lia].
    + exists 1. split; [vm_compute; auto | vm_compute; discriminate].
  - apply (bishop_blocked_or_clear
             (map str ["rnbqkbnr"; "pppp.ppp"; "........"; "....p...";
                       "....P..."; "........"; "PPPP.PPP"; "RNBQKBNR"]%string)
             (str "f1") (str "c4") (str "white") 5 1 2 4);
      try reflexivity; try lia.
    + split; [reflexivity | lia].
    + intros k Hk. assert (Hc : k = 1 \/ k = 2) by lia.
      destruct Hc as [-> | ->]; reflexivity.
    + left. reflexivity.
Defined.




(** * Properties of [analyze_pawn_moves] *)

Example pawn_moves_after_a3_e5 :
  analyze_pawn_moves
    (map str ["rnbqkbnr"; "pppp.ppp"; "........"; "....p...";
              "........"; "P......."; ".PPPPPPP"; "RNBQKBNR"]%string)
    (str "white")
  = Ok (map str ["a4"; "b3"; "b4"; "c3"; "c4"; "d3"; "d4"; "e3"; "e4";
                 "f3"; "f4"; "g3"; "g4"; "h3"; "h4"]%string).
Proof. vm_compute. reflexivity. Qed.

Lemma home_advances b color file_idx :
  wf_board b = true -> 0 <= file_idx < 8 ->
  let r := start_rank_of color in
  let d := direction_of color in
  look b r file_idx = pawn_of color ->
  exists ms all,
    moves_at b color r file_idx = Ok ms
    /\ analyze_pawn_moves b color = Ok all
    /\ incl ms all
    /\ (In (square_name file_idx (8 - (r + 2 * d))) ms
        <-> look b (r + d) file_idx = "."%char
            /\ look b (r + 2 * d) file_idx = "."%char)
    /\ (In (square_name file_idx (8 - (r + d))) ms
        <-> look b (r + d) file_idx = "."%char).
Proof.
  intros Hwf Hf r d Hp.
  pose proof (moves_at_home b color file_idx Hwf Hf Hp) as Hms.
  fold r in Hms. fold d in Hms.
  destruct (analyze_total b color) as (all & Hall & Hincl).
  { intros. now apply moves_at_total. }
  assert (Hr : 0 <= r < 8)
    by (unfold r, start_rank_of; destruct (pystr_eqb color (str "white")); lia).
  assert (Hne : square_name file_idx (8 - (r + d))
                <> square_name file_idx (8 - (r + 2 * d))).
  { intro E. apply square_name_rank in E. revert E.
    unfold r, d, start_rank_of, direction_of.
    destruct (pystr_eqb color (str "white")); vm_compute; discriminate. }
  eexists. exists all. split; [exact Hms|]. split; [exact Hall|].
  split; [exact (Hincl r file_idx _ Hr Hf Hms)|].
  destruct (Ascii.eqb_spec (look b (r + d) file_idx) ".") as [E1|E1];
    destruct (Ascii.eqb_spec (look b (r + 2 * d) file_idx) ".") as [E2|E2];
    cbn [In]; split; split; try tauto; intros H;
    repeat match goal with
           | H : _ \/ _ |- _ => destruct H
           | H : _ /\ _ |- _ => destruct H
           end; try contradiction; try congruence; auto.
Qed.

(** C4.  On a board of eight rows of eight cells: for a white pawn on
    rank 2 the loop body yields the move to rank 4 of the pawn's file exactly
    when the squares on rank 3 and on rank 4 of that file are both empty, and
    the move to rank 3 exactly when the square on rank 3 is empty; for a
    black pawn on rank 7 the same holds with ranks 5 and 6.  What the body
    yields for the pawn is part of the list the generator returns. *)
Theorem home_rank_pawn_advances b file_idx :
  wf_board b = true -> 0 <= file_idx < 8 ->
  (occupant b (file_idx, 2) = "P"%char ->
   exists ms all,
     moves_at b (str "white") 6 file_idx = Ok ms
     /\ analyze_pawn_moves b (str "white") = Ok all
     /\ incl ms all
     /\ (In (square_name file_idx 4) ms
         <-> occupant b (file_idx, 3) = "."%char
             /\ occupant b (file_idx, 4) = "."%char)
     /\ (In (square_name file_idx 3) ms
         <-> occupant b (file_idx, 3) = "."%char))
  /\ (occupant b (file_idx, 7) = "p"%char ->
      exists ms all,
        moves_at b (str "black") 1 file_idx = Ok ms
        /\ analyze_pawn_moves b (str "black") = Ok all
        /\ incl ms all
        /\ (In (square_name file_idx 5) ms
            <-> occupant b (file_idx, 6) = "."%char
                /\ occupant b (file_idx, 5) = "."%char)
        /\ (In (square_name file_idx 6) ms
            <-> occupant b (file_idx, 6) = "."%char)).
Proof.
  intros Hwf Hf. split; intro Hp.
  - exact (home_advances b (str "white") file_idx Hwf Hf Hp).
  - exact (home_advances b (str "black") file_idx Hwf Hf Hp).
Qed.

Lemma home_rank_pawn_advances_witness :
  exists ms all,
    moves_at
      (map str ["rnbqkbnr"; "pppp.ppp"; "........"; "....p...";
                "........"; "P......."; ".PPPPPPP"; "RNBQKBNR"]%string)
      (str "white") 6 1 = Ok ms
    /\ analyze_pawn_moves
         (map str ["rnbqkbnr"; "pppp.ppp"; "........"; "....p...";
                   "........"; "P......."; ".PPPPPPP"; "RNBQKBNR"]%string)
         (str "white") = Ok all
    /\ incl ms all
    /\ (In (square_name 1 4) ms
        <-> occupant
              (map str ["rnbqkbnr"; "pppp.ppp"; "........"; "....p...";
                        "........"; "P......."; ".PPPPPPP"; "RNBQKBNR"]%string)
              (1, 3) = "."%char
            /\ occupant
                 (map str ["rnbqkbnr"; "pppp.ppp"; "........"; "....p...";
                           "........"; "P......."; ".PPPPPPP"; "RNBQKBNR"]%string)
                 (1, 4) = "."%char)
    /\ (In (square_name 1 3) ms
        <-> occupant
              (map str ["rnbqkbnr"; "pppp.ppp"; "........"; "....p...";
                        "........"; "P......."; ".PPPPPPP"; "RNBQKBNR"]%string)
              (1, 3) = "."%char).
Proof.
  apply (home_rank_pawn_advances
           (map str ["rnbqkbnr"; "pppp.ppp"; "........"; "....p...";
                     "........"; "P......."; ".PPPPPPP"; "RNBQKBNR"]%string)
           1).
  - reflexivity.
  - lia.
  - reflexivity.
Defined.

(** C10.  Every move in the list the generator returns is an advance of
    one or two rows along the file of a pawn of the given colour: its text is
    the letter of the pawn's own file followed by the rank one or two steps
    ahead.  No move to another file, so no capture, is ever in the list.  On
    a board of eight rows of eight cells the generator returns. *)
Theorem pawn_moves_stay_on_file b color :
  (forall all m,
     analyze_pawn_moves b color = Ok all -> In m all ->
     exists rank_idx file_idx k,
       0 <= rank_idx < 8 /\ 0 <= file_idx < 8
       /\ cell b rank_idx file_idx = Ok (pawn_of color)
       /\ (k = 1 \/ k = 2)
       /\ m = square_name file_idx
                (8 - (rank_idx + k * direction_of color)))
  /\ (wf_board b = true -> exists all, analyze_pawn_moves b color = Ok all).
Proof.
  split.
  - intros all m Hall Hin.
    destruct (analyze_in _ _ _ _ Hall Hin)
      as (rank_idx & file_idx & ms & Hr & Hf & Hms & Hm).
    destruct (moves_at_in _ _ _ _ _ _ Hf Hms Hm) as (Hcell & k & Hk & ->).
    exists rank_idx, file_idx, k. auto.
  - intro Hwf.
    destruct (analyze_total b color) as (all & Hall & _).
    + intros. now apply moves_at_total.
    + now exists all.
Qed.

Lemma pawn_moves_stay_on_file_witness :
  exists all,
    analyze_pawn_moves
      (map str ["rnbqkbnr"; "pppp.ppp"; "........"; "....p...";
                "........"; "P......."; ".PPPPPPP"; "RNBQKBNR"]%string)
      (str "white") = Ok all
    /\ forall m, In m all ->
         exists rank_idx file_idx k,
           0 <= rank_idx < 8 /\ 0 <= file_idx < 8
           /\ cell
                (map str ["rnbqkbnr"; "pppp.ppp"; "........"; "....p...";
                          "........"; "P......."; ".PPPPPPP"; "RNBQKBNR"]%string)
                rank_idx file_idx = Ok "P"%char
           /\ (k = 1 \/ k = 2)
           /\ m = square_name file_idx (8 - (rank_idx + k * -1)).
Proof.
  destruct (pawn_moves_stay_on_file
              (map str ["rnbqkbnr"; "pppp.ppp"; "........"; "....p...";
                        "........"; "P......."; ".PPPPPPP"; "RNBQKBNR"]%string)
              (str "white")) as [H1 H2].
  destruct (H2 eq_refl) as (all & Hall).
  exists all. split; [exact Hall|].
  intros m Hm. exact (H1 all m Hall Hm).
Defined.

(** * Further properties: reading the placement *)

Lemma superscript_false_int c :
  isdigit c = true -> superscript c = false ->
  int_of_char c = Ok (ord c - 48) /\ in_range 48 57 c = true.
Proof.
  unfold superscript, int_of_char. intros -> H. simpl in H.
  apply negb_false_iff in H. now rewrite H.
Qed.

Lemma superscript_true_int c :
  superscript c = true -> isdigit c = true /\ int_of_char c = Raise ValueError.
Proof.
  unfold superscript, int_of_char. intro H.
  apply andb_true_iff in H as [Hd Hn]. apply negb_true_iff in Hn.
  now rewrite Hn.
Qed.

Lemma decimal_isdigit c : in_range 48 57 c = true -> isdigit c = true.
Proof. unfold isdigit. now intros ->. Qed.

Lemma not_isdigit_width c : isdigit c = false -> char_width c = 1%nat.
Proof.
  unfold char_width. intro H.
  destruct (in_range 48 57 c) eqn:E; [|reflexivity].
  apply decimal_isdigit in E. congruence.
Qed.

Lemma rank_width_cons c rank :
  rank_width (c :: rank) = (char_width c + rank_width rank)%nat.
Proof. reflexivity. Qed.

Lemma parse_rank_length rank : forall row row',
  parse_rank row rank = Ok row' ->
  List.length row' = (List.length row + rank_width rank)%nat.
Proof.
  induction rank as [|c rank IH]; intros row row'; cbn [parse_rank].
  - intros [= <-]. unfold rank_width. simpl. lia.
  - rewrite rank_width_cons.
    destruct (isdigit c) eqn:Hd.
    + destruct (int_of_char c) as [n|e] eqn:Ei; cbn [bind]; [|discriminate].
      intro H. apply IH in H. rewrite H, length_app, repeat_length.
      apply int_of_char_ok in Ei as [-> Hr].
      assert (Hw : char_width c = Z.to_nat (ord c - 48)).
      { unfold char_width.
        replace (in_range 48 57 c) with true
          by (symmetry; apply in_range_iff; lia).
        reflexivity. }
      rewrite Hw. lia.
    + intro H. apply IH in H. rewrite H, length_app.
      rewrite (not_isdigit_width _ Hd). simpl. lia.
Qed.

Lemma parse_rank_returns rank : forall row,
  existsb superscript rank = false -> exists row', parse_rank row rank = Ok row'.
Proof.
  induction rank as [|c rank IH]; intros row; cbn [parse_rank existsb].
  - intros _. now exists row.
  - intro H. apply orb_false_iff in H as [Hc Hrest].
    destruct (isdigit c) eqn:Hd.
    + destruct (superscript_false_int c Hd Hc) as [-> _]. cbn [bind].
      now apply IH.
    + now apply IH.
Qed.

Lemma parse_rank_raises rank : forall row,
  existsb superscript rank = true -> parse_rank row rank = Raise ValueError.
Proof.
  induction rank as [|c rank IH]; intros row; cbn [parse_rank existsb];
    [discriminate|].
  destruct (superscript c) eqn:Hc.
  - intros _. destruct (superscript_true_int c Hc) as [-> ->]. reflexivity.
  - cbn [orb]. intro H.
    destruct (isdigit c) eqn:Hd.
    + destruct (superscript_false_int c Hd Hc) as [-> _]. cbn [bind].
      now apply IH.
    + now apply IH.
Qed.

Lemma parse_ranks_rows ranks : forall b b',
  parse_ranks b ranks = Ok b' ->
  exists rows,
    b' = b ++ rows
    /\ Forall2 (fun rank row => parse_rank [] rank = Ok row) ranks rows.
Proof.
  induction ranks as [|rank ranks IH]; intros b b'; cbn [parse_ranks].
  - intros [= <-]. exists []. split; [now rewrite app_nil_r | constructor].
  - destruct (parse_rank [] rank) as [row|e] eqn:Er; cbn [bind]; [|discriminate].
    intro H. apply IH in H as (rows & -> & HF).
    exists (row :: rows). split; [now rewrite <- app_assoc | now constructor].
Qed.

Lemma parse_ranks_returns ranks : forall b,
  existsb (existsb superscript) ranks = false ->
  exists b', parse_ranks b ranks = Ok b'.
Proof.
  induction ranks as [|rank ranks IH]; intros b; cbn [parse_ranks existsb].
  - intros _. now exists b.
  - intro H. apply orb_false_iff in H as [Hr Hrest].
    destruct (parse_rank_returns rank [] Hr) as (row & ->). cbn [bind].
    now apply IH.
Qed.

Lemma parse_ranks_raises ranks : forall b,
  existsb (existsb superscript) ranks = true ->
  parse_ranks b ranks = Raise ValueError.
Proof.
  induction ranks as [|rank ranks IH]; intros b; cbn [parse_ranks existsb];
    [discriminate|].
  destruct (existsb superscript rank) eqn:Hr.
  - intros _. now rewrite parse_rank_raises.
  - cbn [orb]. intro H.
    destruct (parse_rank_returns rank [] Hr) as (row & ->). cbn [bind].
    now apply IH.
Qed.

Lemma existsb_rev_cons {A} (p : A -> bool) x l :
  existsb p (rev (x :: l)) = p x || existsb p (rev l).
Proof.
  cbn [rev]. rewrite existsb_app. cbn [existsb].
  rewrite orb_false_r. apply orb_comm.
Qed.

(** The characters of the pieces that [split('/')] cuts are those of the
    string, the separator apart. *)
Lemma split_on_from_exists p sep s : forall cur,
  p sep = false ->
  existsb (existsb p) (split_on_from sep cur s)
  = existsb p (rev cur) || existsb p s.
Proof.
  induction s as [|c s IH]; intros cur Hsep; cbn [split_on_from existsb].
  - now rewrite !orb_false_r.
  - destruct (Ascii.eqb_spec c sep) as [-> | Hne]; cbn [existsb].
    + rewrite (IH [] Hsep), Hsep. reflexivity.
    + rewrite (IH (c :: cur) Hsep), existsb_rev_cons.
      destruct (p c), (existsb p (rev cur)); reflexivity.
Qed.

Lemma split_on_exists p sep s :
  p sep = false ->
  existsb (existsb p) (split_on sep s) = existsb p s.
Proof. intro H. unfold split_on. now rewrite split_on_from_exists. Qed.

Lemma split_on_from_length sep s : forall cur,
  List.length (split_on_from sep cur s) = S (count_occ ascii_dec s sep).
Proof.
  induction s as [|c s IH]; intros cur; cbn [split_on_from count_occ].
  - reflexivity.
  - destruct (Ascii.eqb_spec c sep) as [-> | Hne].
    + destruct (ascii_dec sep sep); [|contradiction].
      cbn [List.length]. now rewrite IH.
    + destruct (ascii_dec c sep); [contradiction|]. apply IH.
Qed.

Lemma Forall2_map_eq {A B C} (f : A -> C) (g : B -> C) xs ys :
  Forall2 (fun x y => g y = f x) xs ys -> map g ys = map f xs.
Proof. induction 1; simpl; congruence. Qed.

Lemma parse_board_rows bp b :
  parse_board bp = Ok b ->
  List.length b = S (count_occ ascii_dec bp "/"%char)
  /\ map (@List.length ascii) b = map rank_width (split_on "/"%char bp)
  /\ (wf_board b = true <->
      count_occ ascii_dec bp "/"%char = 7%nat
      /\ Forall (fun rank => rank_width rank = 8%nat) (split_on "/"%char bp)).
Proof.
  unfold parse_board. intro H.
  apply parse_ranks_rows in H as (rows & -> & HF). cbn [app].
  assert (Hlen : List.length rows = S (count_occ ascii_dec bp "/"%char)).
  { rewrite <- (Forall2_length HF). apply split_on_from_length. }
  assert (Hmap : map (@List.length ascii) rows
                 = map rank_width (split_on "/"%char bp)).
  { apply Forall2_map_eq. eapply Forall2_impl; [|exact HF].
    intros rank row Hr. apply parse_rank_length in Hr. simpl in Hr. exact Hr. }
  split; [exact Hlen|]. split; [exact Hmap|].
  unfold wf_board. rewrite andb_true_iff, Nat.eqb_eq, Hlen, forallb_forall.
  assert (Hrows : (forall row, In row rows -> (List.length row =? 8)%nat = true)
                  <-> Forall (fun rank => rank_width rank = 8%nat)
                        (split_on "/"%char bp)).
  { rewrite Forall_forall. split.
    - intros Hall rank Hin.
      destruct (Forall2_in_left _ _ _ _ HF Hin) as (row & Hrow & Hp).
      apply parse_rank_length in Hp. simpl in Hp. rewrite <- Hp.
      apply Nat.eqb_eq. now apply Hall.
    - intros Hall row Hin.
      destruct (Forall2_in_right _ _ _ _ HF Hin) as (rank & Hrank & Hp).
      apply parse_rank_length in Hp. simpl in Hp. rewrite Hp.
      apply Nat.eqb_eq. now apply Hall. }
  rewrite Hrows. split; intros [H1 H2]; split; auto; lia.
Qed.

(** X1.  The shape of a parsed board is read off the placement text: one
    row for each piece that the slashes cut (one more than there are
    slashes), and in each row as many cells as the characters of its piece
    stand for, a decimal digit standing for its value and any other character
    for one cell.  So the board has eight rows of eight cells exactly when
    there are seven slashes and every piece stands for eight cells. *)
Theorem parse_board_shape bp b :
  parse_board bp = Ok b ->
  List.length b = S (count_occ ascii_dec bp "/"%char)
  /\ map (@List.length ascii) b = map rank_width (split_on "/"%char bp)
  /\ (wf_board b = true <->
      count_occ ascii_dec bp "/"%char = 7%nat
      /\ Forall (fun rank => rank_width rank = 8%nat) (split_on "/"%char bp)).
Proof. exact (parse_board_rows bp b). Qed.

Lemma parse_board_shape_witness :
  List.length
    (map str ["rnbqkbnr"; "pppp.ppp"; "........"; "....p...";
              "........"; "P......."; ".PPPPPPP"; "RNBQKBNR"]%string)
  = S (count_occ ascii_dec
         (str "rnbqkbnr/pppp1ppp/8/4p3/8/P7/1PPPPPPP/RNBQKBNR") "/"%char)
  /\ map (@List.length ascii)
       (map str ["rnbqkbnr"; "pppp.ppp"; "........"; "....p...";
                 "........"; "P......."; ".PPPPPPP"; "RNBQKBNR"]%string)
     = map rank_width
         (split_on "/"%char
            (str "rnbqkbnr/pppp1ppp/8/4p3/8/P7/1PPPPPPP/RNBQKBNR"))
  /\ (wf_board
        (map str ["rnbqkbnr"; "pppp.ppp"; "........"; "....p...";
                  "........"; "P......."; ".PPPPPPP"; "RNBQKBNR"]%string)
      = true <->
      count_occ ascii_dec
        (str "rnbqkbnr/pppp1ppp/8/4p3/8/P7/1PPPPPPP/RNBQKBNR") "/"%char
      = 7%nat
      /\ Forall (fun rank => rank_width rank = 8%nat)
           (split_on "/"%char
              (str "rnbqkbnr/pppp1ppp/8/4p3/8/P7/1PPPPPPP/RNBQKBNR"))).
Proof.
  exact (parse_board_shape
           (str "rnbqkbnr/pppp1ppp/8/4p3/8/P7/1PPPPPPP/RNBQKBNR")
           (map str ["rnbqkbnr"; "pppp.ppp"; "........"; "....p...";
                     "........"; "P......."; ".PPPPPPP"; "RNBQKBNR"]%string)
           eq_refl).
Defined.

Lemma parse_board_cases bp :
  (existsb superscript bp = false -> exists b, parse_board bp = Ok b)
  /\ (existsb superscript bp = true -> parse_board bp = Raise ValueError).
Proof.
  unfold parse_board. split; intro H.
  - apply parse_ranks_returns. now rewrite split_on_exists.
  - apply parse_ranks_raises. now rewrite split_on_exists.
Qed.



(** * Further properties: the state string *)

Lemma getitem_nat {A} (l : list A) (n : nat) :
  getitem l (Z.of_nat n)
  = match nth_error l n with Some x => Ok x | None => Raise IndexError end.
Proof.
  unfold getitem.
  replace (Z.of_nat n <? 0) with false by (symmetry; apply Z.ltb_ge; lia).
  replace (0 <=? Z.of_nat n) with true by (symmetry; apply Z.leb_le; lia).
  rewrite Nat2Z.id. cbn [andb].
  destruct (nth_error l n) as [x|] eqn:E.
  - assert (n < List.length l)%nat by (apply nth_error_Some; congruence).
    replace (Z.of_nat n <? Z.of_nat (List.length l)) with true
      by (symmetry; apply Z.ltb_lt; lia).
    reflexivity.
  - apply nth_error_None in E.
    replace (Z.of_nat n <? Z.of_nat (List.length l)) with false
      by (symmetry; apply Z.ltb_ge; lia).
    reflexivity.
Qed.

Lemma getitem_raise {A} (l : list A) i e :
  getitem l i = Raise e -> e = IndexError.
Proof.
  unfold getitem.
  destruct ((0 <=? _) && (_ <? _)); [|now intros [= <-]].
  destruct (nth_error l _); [discriminate | now intros [= <-]].
Qed.

Lemma cell_raise b row col e : cell b row col = Raise e -> e = IndexError.
Proof.
  unfold cell. destruct (getitem b row) as [r|e'] eqn:E; cbn [bind].
  - apply getitem_raise.
  - intros [= <-]. now apply getitem_raise in E.
Qed.

Lemma split_from_nil s : forall cur,
  split_from cur s = [] <-> cur = [] /\ forallb isspace s = true.
Proof.
  induction s as [|c s IH]; intros cur; cbn [split_from forallb].
  - destruct cur; split; try tauto; try discriminate. intros [H _]. discriminate.
  - destruct (isspace c); cbn [andb].
    + destruct cur as [|d cur].
      * apply IH.
      * split; [discriminate | intros [H _]; discriminate].
    + rewrite IH. split; [intros [H _]; discriminate | intros [_ H]; discriminate].
Qed.

Lemma split_nil s : split s = [] <-> forallb isspace s = true.
Proof. unfold split. rewrite split_from_nil. tauto. Qed.

Lemma parse_board_not_index bp : parse_board bp <> Raise IndexError.
Proof.
  destruct (existsb superscript bp) eqn:E.
  - rewrite (proj2 (parse_board_cases bp) E). discriminate.
  - destruct (proj1 (parse_board_cases bp) E) as (b & ->). discriminate.
Qed.

(** X3.  [parse_fen_to_board] raises [IndexError] exactly for an input
    that is empty or all whitespace.  For any other input it is the parse of
    the first field alone: the other fields are not looked at (there may be
    fewer or more than six), and the only exception left is the
    [ValueError] of the placement. *)
Theorem parse_fen_to_board_blank fen :
  (parse_fen_to_board fen = Raise IndexError <-> forallb isspace fen = true)
  /\ (forallb isspace fen = false ->
      exists bp rest,
        split fen = bp :: rest /\ parse_fen_to_board fen = parse_board bp).
Proof.
  unfold parse_fen_to_board.
  destruct (split fen) as [|bp rest] eqn:Es.
  - apply split_nil in Es. rewrite Es. split; [now split|discriminate].
  - assert (Hns : forallb isspace fen = false).
    { destruct (forallb isspace fen) eqn:E; [|reflexivity].
      apply split_nil in E. congruence. }
    change 0 with (Z.of_nat 0). rewrite getitem_nat. cbn [nth_error bind].
    split.
    + split; [|congruence]. intro H. now apply parse_board_not_index in H.
    + intros _. now exists bp, rest.
Qed.

Lemma parse_fen_to_board_blank_witness :
  exists bp rest,
    split (str " 8/8  w") = bp :: rest
    /\ parse_fen_to_board (str " 8/8  w") = parse_board bp.
Proof.
  exact (proj2 (parse_fen_to_board_blank (str " 8/8  w")) eq_refl).
Defined.

Lemma parse_and_display_board_cases fen :
  ((List.length (split fen) < 6)%nat ->
   parse_and_display_board fen = Raise IndexError)
  /\ ((6 <= List.length (split fen))%nat ->
      parse_and_display_board fen = parse_fen_to_board fen).
Proof.
  unfold parse_and_display_board, parse_fen_to_board.
  change 0 with (Z.of_nat 0). change 1 with (Z.of_nat 1).
  change 2 with (Z.of_nat 2). change 3 with (Z.of_nat 3).
  change 4 with (Z.of_nat 4). change 5 with (Z.of_nat 5).
  rewrite !getitem_nat.
  destruct (split fen) as [|a [|b [|c [|d [|e [|f l]]]]]];
    cbn [List.length nth_error bind]; split; intro H;
    try reflexivity; lia.
Qed.

(** X4.  [parse_and_display_board] takes all six fields before it parses:
    with fewer than six fields it raises [IndexError]; with six or more it
    gives what [parse_fen_to_board] gives, fields beyond the sixth being
    ignored. *)
Theorem parse_and_display_board_fields fen :
  ((List.length (split fen) < 6)%nat ->
   parse_and_display_board fen = Raise IndexError)
  /\ ((6 <= List.length (split fen))%nat ->
      parse_and_display_board fen = parse_fen_to_board fen).
Proof. exact (parse_and_display_board_cases fen). Qed.

Lemma parse_and_display_board_fields_witness :
  parse_and_display_board (str "8/8 w - -") = Raise IndexError
  /\ parse_and_display_board (str "8/8 w - - 0 1 extra")
     = parse_fen_to_board (str "8/8 w - - 0 1 extra").
Proof.
  split.
  - apply (proj1 (parse_and_display_board_fields (str "8/8 w - -"))).
    vm_compute. lia.
  - apply (proj2 (parse_and_display_board_fields (str "8/8 w - - 0 1 extra"))).
    vm_compute. lia.
Defined.

(** * Further properties: finding pieces *)

Lemma for_each_appending_raise {A} (gen : Z -> result (list A)) xs : forall s e,
  for_each xs (appending gen) s = Raise e ->
  exists x, In x xs /\ gen x = Raise e.
Proof.
  induction xs as [|x xs IH]; intros s e; cbn [for_each]; [discriminate|].
  unfold appending at 1. destruct (gen x) as [ms|e'] eqn:Eg; cbn [bind].
  - intro H. apply IH in H as (y & Hy & Hg). exists y. split; [now right|auto].
  - intros [= <-]. exists x. split; [now left | assumption].
Qed.

Lemma Ok_inj {A} (x y : A) : Ok x = Ok y -> x = y.
Proof. now intros [= ->]. Qed.

Section Collect.

Variable A : Type.
Variable gen : Z -> Z -> result (list A).

Lemma collect64_in all m :
  collect64 gen = Ok all -> In m all ->
  exists r f ms,
    0 <= r < 8 /\ 0 <= f < 8 /\ gen r f = Ok ms /\ In m ms.
Proof.
  unfold collect64. intros Hall Hin.
  apply for_each_concat in Hall as (rows & Hrows & ->).
  apply in_concat in Hin as (row & Hrow & Hin).
  destruct (Forall2_in_right _ _ _ _ Hrows Hrow) as (r & Hr & Hgen).
  apply for_each_concat in Hgen as (cells & Hcells & ->).
  apply in_concat in Hin as (ms & Hms & Hin).
  destruct (Forall2_in_right _ _ _ _ Hcells Hms) as (f & Hf & Hgen).
  exists r, f, ms. apply range8_iff in Hr. apply range8_iff in Hf. auto.
Qed.

Lemma collect64_incl all r f :
  collect64 gen = Ok all -> 0 <= r < 8 -> 0 <= f < 8 ->
  exists ms, gen r f = Ok ms /\ incl ms all.
Proof.
  unfold collect64. intros Hall Hr Hf.
  apply range8_iff in Hr. apply range8_iff in Hf.
  apply for_each_concat in Hall as (rows & Hrows & ->).
  destruct (Forall2_in_left _ _ _ _ Hrows Hr) as (row & Hin_row & Hgen).
  apply for_each_concat in Hgen as (cells & Hcells & ->).
  destruct (Forall2_in_left _ _ _ _ Hcells Hf) as (ms & Hms & Hgen).
  exists ms. split; [assumption|]. intros m Hm.
  apply in_concat. exists (List.concat cells). split; [assumption|].
  apply in_concat. now exists ms.
Qed.

Lemma collect64_total :
  (forall r f, 0 <= r < 8 -> 0 <= f < 8 -> exists ms, gen r f = Ok ms) ->
  exists all, collect64 gen = Ok all.
Proof.
  intro Hok. unfold collect64.
  assert (Hrow : forall r, In r range8 ->
            exists ms, for_each range8 (appending (gen r)) [] = Ok ms).
  { intros r Hr. apply range8_iff in Hr.
    destruct (Forall2_total (fun x ms => gen r x = Ok ms) range8)
      as (cells & Hcells).
    - intros f Hf. apply range8_iff in Hf. now apply Hok.
    - exists (List.concat cells). apply for_each_concat. now exists cells. }
  destruct (Forall2_total _ _ Hrow) as (rows & Hrows).
  exists (List.concat rows). apply for_each_concat. now exists rows.
Qed.

Lemma collect64_raise e :
  collect64 gen = Raise e ->
  exists r f, 0 <= r < 8 /\ 0 <= f < 8 /\ gen r f = Raise e.
Proof.
  unfold collect64. intro H.
  apply for_each_appending_raise in H as (r & Hr & H).
  apply for_each_appending_raise in H as (f & Hf & H).
  exists r, f. apply range8_iff in Hr. apply range8_iff in Hf. auto.
Qed.

End Collect.

Lemma collect64_loops {A} (step : Z -> Z -> list A -> result (list A)) :
  (forall r f s, step r f s = (ms <- step r f [] ;; Ok (s ++ ms))) ->
  for_each range8 (fun r s => for_each range8 (fun f s => step r f s) s) []
  = collect64 (fun r f => step r f []).
Proof.
  intro Happ. unfold collect64. apply for_each_ext. intros r s.
  unfold appending at 1. rewrite <- for_each_appending.
  apply for_each_ext. intros f s'. unfold appending. apply Happ.
Qed.

Lemma find_step_appends b piece rank_idx file_idx positions :
  find_step b piece rank_idx file_idx positions
  = (ms <- find_step b piece rank_idx file_idx [] ;; Ok (positions ++ ms)).
Proof.
  unfold find_step.
  destruct (cell b rank_idx file_idx) as [c|e]; cbn [bind]; [|reflexivity].
  destruct (pystr_eqb [c] piece); cbn [bind]; [|now rewrite app_nil_r].
  destruct (getitem files file_idx) as [file|e]; cbn [bind]; reflexivity.
Qed.

Lemma find_pieces_collect b piece :
  find_pieces b piece = collect64 (found_at b piece).
Proof.
  unfold find_pieces.
  apply (collect64_loops (find_step b piece)). intros. apply find_step_appends.
Qed.

Lemma found_at_cell b piece rank_idx file_idx :
  0 <= file_idx < 8 ->
  found_at b piece rank_idx file_idx
  = (c <- cell b rank_idx file_idx ;;
     Ok (if pystr_eqb [c] piece
         then [square_name file_idx (8 - rank_idx)] else [])).
Proof.
  intro Hf. unfold found_at, find_step.
  destruct (cell b rank_idx file_idx) as [c|e]; cbn [bind]; [|reflexivity].
  destruct (pystr_eqb [c] piece); [|reflexivity].
  rewrite getitem_files by assumption. reflexivity.
Qed.

Lemma file_letter_inj f f' :
  0 <= f < 8 -> 0 <= f' < 8 ->
  nth (Z.to_nat f) files "?"%char = nth (Z.to_nat f') files "?"%char ->
  f = f'.
Proof.
  intros Hf Hf'.
  assert (E : f = 0 \/ f = 1 \/ f = 2 \/ f = 3 \/ f = 4 \/ f = 5 \/ f = 6
              \/ f = 7) by lia.
  assert (E' : f' = 0 \/ f' = 1 \/ f' = 2 \/ f' = 3 \/ f' = 4 \/ f' = 5
               \/ f' = 6 \/ f' = 7) by lia.
  repeat (destruct E as [-> | E]); try subst f;
    repeat (destruct E' as [-> | E']); try subst f';
    vm_compute; intro H; (reflexivity || discriminate H).
Qed.

Lemma rank_text_inj r r' :
  0 <= r <= 9 -> 0 <= r' <= 9 -> str_of_int r = str_of_int r' -> r = r'.
Proof.
  intros Hr Hr'.
  assert (E : r = 0 \/ r = 1 \/ r = 2 \/ r = 3 \/ r = 4 \/ r = 5 \/ r = 6
              \/ r = 7 \/ r = 8 \/ r = 9) by lia.
  assert (E' : r' = 0 \/ r' = 1 \/ r' = 2 \/ r' = 3 \/ r' = 4 \/ r' = 5
               \/ r' = 6 \/ r' = 7 \/ r' = 8 \/ r' = 9) by lia.
  repeat (destruct E as [-> | E]); try subst r;
    repeat (destruct E' as [-> | E']); try subst r';
    vm_compute; intro H; (reflexivity || discriminate H).
Qed.

Lemma square_name_inj f r f' r' :
  0 <= f < 8 -> 0 <= f' < 8 -> 0 <= r <= 9 -> 0 <= r' <= 9 ->
  square_name f r = square_name f' r' -> f = f' /\ r = r'.
Proof.
  intros Hf Hf' Hr Hr'. unfold square_name. cbn [app]. intros [= H1 H2].
  split; [now apply file_letter_inj | now apply rank_text_inj].
Qed.

Lemma find_pieces_wf b piece :
  wf_board b = true ->
  exists positions,
    find_pieces b piece = Ok positions
    /\ (forall p, In p positions ->
          exists file_idx rank,
            0 <= file_idx < 8 /\ 1 <= rank <= 8
            /\ p = square_name file_idx rank
            /\ [occupant b (file_idx, rank)] = piece)
    /\ (forall file_idx rank,
          0 <= file_idx < 8 -> 1 <= rank <= 8 ->
          (In (square_name file_idx rank) positions
           <-> [occupant b (file_idx, rank)] = piece)).
Proof.
  intro Hwf. rewrite find_pieces_collect.
  assert (Hgen : forall r f, 0 <= r < 8 -> 0 <= f < 8 ->
            found_at b piece r f
            = Ok (if pystr_eqb [look b r f] piece
                  then [square_name f (8 - r)] else [])).
  { intros r f Hr Hf. rewrite found_at_cell by assumption.
    now rewrite wf_cell. }
  destruct (collect64_total _ (found_at b piece)) as (positions & Hall).
  { intros r f Hr Hf. rewrite Hgen by assumption. eexists. reflexivity. }
  exists positions. split; [assumption|].
  assert (Hsound : forall p, In p positions ->
            exists file_idx rank,
              0 <= file_idx < 8 /\ 1 <= rank <= 8
              /\ p = square_name file_idx rank
              /\ [occupant b (file_idx, rank)] = piece).
  { intros p Hp.
    destruct (collect64_in _ _ _ _ Hall Hp) as (r & f & ms & Hr & Hf & Hg & Hin).
    rewrite Hgen in Hg by assumption. apply Ok_inj in Hg. subst ms.
    destruct (pystr_eqb [look b r f] piece) eqn:E; cbn [In] in Hin;
      [|contradiction].
    destruct Hin as [<- | Hin]; [|contradiction]. apply pystr_eqb_eq in E.
    exists f, (8 - r). repeat split; try lia.
    unfold occupant. cbn [fst snd]. now replace (8 - (8 - r)) with r by lia. }
  split; [exact Hsound|].
  intros file_idx rank Hf Hr. split.
  - intro Hin. destruct (Hsound _ Hin) as (f' & r' & Hf' & Hr' & E & Hocc).
    apply square_name_inj in E as [-> ->]; (assumption || lia).
  - intro Hocc.
    destruct (collect64_incl _ _ _ (8 - rank) file_idx Hall) as (ms & Hg & Hincl);
      try lia.
    rewrite Hgen in Hg by lia. apply Ok_inj in Hg. subst ms.
    apply Hincl. unfold occupant in Hocc. cbn [fst snd] in Hocc.
    rewrite <- Hocc, pystr_eqb_refl.
    replace (8 - (8 - rank)) with rank by lia. now left.
Qed.

(** X5.  On a board of eight rows of eight cells [find_pieces] returns,
    and what it returns are exactly the squares whose cell is the piece
    asked for: every returned text is the name of such a square, and the name
    of a square is returned exactly when its cell is that piece. *)
Theorem find_pieces_exact b piece :
  wf_board b = true ->
  exists positions,
    find_pieces b piece = Ok positions
    /\ (forall p, In p positions ->
          exists file_idx rank,
            0 <= file_idx < 8 /\ 1 <= rank <= 8
            /\ p = square_name file_idx rank
            /\ [occupant b (file_idx, rank)] = piece)
    /\ (forall file_idx rank,
          0 <= file_idx < 8 -> 1 <= rank <= 8 ->
          (In (square_name file_idx rank) positions
           <-> [occupant b (file_idx, rank)] = piece)).
Proof. exact (find_pieces_wf b piece). Qed.

Lemma find_pieces_exact_witness :
  exists positions,
    find_pieces
      (map str ["rnbqkbnr"; "pppp.ppp"; "........"; "....p...";
                "..B.P..."; "........"; "PPPP.PPP"; "RNBQK.NR"]%string)
      (str "B")
    = Ok positions
    /\ (forall p, In p positions ->
          exists file_idx rank,
            0 <= file_idx < 8 /\ 1 <= rank <= 8
            /\ p = square_name file_idx rank
            /\ [occupant
                  (map str ["rnbqkbnr"; "pppp.ppp"; "........"; "....p...";
                            "..B.P..."; "........"; "PPPP.PPP";
                            "RNBQK.NR"]%string)
                  (file_idx, rank)] = str "B")
    /\ (forall file_idx rank,
          0 <= file_idx < 8 -> 1 <= rank <= 8 ->
          (In (square_name file_idx rank) positions
           <-> [occupant
                  (map str ["rnbqkbnr"; "pppp.ppp"; "........"; "....p...";
                            "..B.P..."; "........"; "PPPP.PPP";
                            "RNBQK.NR"]%string)
                  (file_idx, rank)] = str "B")).
Proof.
  exact (find_pieces_exact
           (map str ["rnbqkbnr"; "pppp.ppp"; "........"; "....p...";
                     "..B.P..."; "........"; "PPPP.PPP"; "RNBQK.NR"]%string)
           (str "B") eq_refl).
Defined.

(** X6.  [find_pieces] returns exactly when the board has a cell at each of
    the 64 places it visits (rows 0 to 7, columns 0 to 7; further rows and
    cells are ignored); on any other board it raises, and the exception is
    [IndexError]. *)
Theorem find_pieces_returns_iff b piece :
  ((exists positions, find_pieces b piece = Ok positions) <->
   (forall rank_idx file_idx,
      0 <= rank_idx < 8 -> 0 <= file_idx < 8 ->
      exists c, cell b rank_idx file_idx = Ok c))
  /\ (forall e, find_pieces b piece = Raise e -> e = IndexError).
Proof.
  rewrite find_pieces_collect. split; [split|].
  - intros (positions & Hall) r f Hr Hf.
    destruct (collect64_incl _ _ _ r f Hall Hr Hf) as (ms & Hg & _).
    rewrite found_at_cell in Hg by assumption.
    destruct (cell b r f) as [c|e]; [now exists c | discriminate].
  - intro Hcells. apply collect64_total. intros r f Hr Hf.
    rewrite found_at_cell by assumption.
    destruct (Hcells r f Hr Hf) as (c & ->). eexists. reflexivity.
  - intros e H. apply collect64_raise in H as (r & f & Hr & Hf & H).
    rewrite found_at_cell in H by assumption.
    destruct (cell b r f) as [c|e'] eqn:Ec; [discriminate|].
    cbn [bind] in H. injection H as <-. now apply cell_raise in Ec.
Qed.

Lemma find_pieces_returns_iff_witness :
  find_pieces (map str ["rnbqkbnr"; "pppppppp"]%string) (str "B")
  = Raise IndexError.
Proof.
  destruct (find_pieces (map str ["rnbqkbnr"; "pppppppp"]%string) (str "B"))
    as [positions|e] eqn:E.
  - exfalso.
    destruct (proj1 (proj1 (find_pieces_returns_iff
                              (map str ["rnbqkbnr"; "pppppppp"]%string)
                              (str "B")))
                (ex_intro _ positions E) 2 0 ltac:(lia) ltac:(lia))
      as (c & Hc).
    discriminate Hc.
  - f_equal.
    exact (proj2 (find_pieces_returns_iff
                    (map str ["rnbqkbnr"; "pppppppp"]%string) (str "B")) e E).
Defined.

(** * Further properties: the bishop check *)

Lemma getitem_pair_0 {A} (x y : A) rest : getitem (x :: y :: rest) 0 = Ok x.
Proof. change 0 with (Z.of_nat 0). now rewrite getitem_nat. Qed.

Lemma getitem_pair_1 {A} (x y : A) rest : getitem (x :: y :: rest) 1 = Ok y.
Proof. change 1 with (Z.of_nat 1). now rewrite getitem_nat. Qed.

(** The two characters of a square's name, and how they are read back. *)
Lemma square_name_read f r :
  0 <= f < 8 -> 0 <= r <= 9 ->
  exists letter digit,
    square_name f r = [letter; digit]
    /\ index files letter = Ok f /\ int_of_char digit = Ok r.
Proof.
  intros Hf Hr.
  assert (E : f = 0 \/ f = 1 \/ f = 2 \/ f = 3 \/ f = 4 \/ f = 5 \/ f = 6
              \/ f = 7) by lia.
  assert (E' : r = 0 \/ r = 1 \/ r = 2 \/ r = 3 \/ r = 4 \/ r = 5 \/ r = 6
               \/ r = 7 \/ r = 8 \/ r = 9) by lia.
  repeat (destruct E as [-> | E]); try subst f;
    repeat (destruct E' as [-> | E']); try subst r;
    do 2 eexists; (split; [reflexivity | split; reflexivity]).
Qed.

Lemma digit_text c r :
  int_of_char c = Ok r -> 0 <= r <= 9 /\ str_of_int r = [c].
Proof.
  intro H. apply int_of_char_ok in H as [-> Hc]. split; [lia|].
  assert (E : ord c = 48 \/ ord c = 49 \/ ord c = 50 \/ ord c = 51
              \/ ord c = 52 \/ ord c = 53 \/ ord c = 54 \/ ord c = 55
              \/ ord c = 56 \/ ord c = 57) by lia.
  repeat (destruct E as [E | E]);
    rewrite E;
    match type of E with
    | ord c = ?n =>
        let d := eval vm_compute in (ascii_of_N (Z.to_N n)) in
        assert (c = d) by (apply ord_inj; rewrite E; reflexivity); subst c
    end; reflexivity.
Qed.

Lemma parse_one_square sq c0 c1 f r :
  getitem sq 0 = Ok c0 -> index files c0 = Ok f ->
  getitem sq 1 = Ok c1 -> int_of_char c1 = Ok r ->
  0 <= f < 8 /\ 0 <= r <= 9 /\ exists rest, sq = square_name f r ++ rest.
Proof.
  intros H0 Hi H1 Hr.
  apply getitem_first in H0 as (rest0 & ->).
  apply getitem_second in H1 as (y & rest & [= <- ->]).
  apply index_files in Hi as [Hf Hn].
  apply digit_text in Hr as [Hr Ht].
  split; [assumption|]. split; [assumption|].
  exists rest. unfold square_name. now rewrite Hn, Ht.
Qed.

Lemma parse_squares_names ff fr tf tr rest rest' :
  0 <= ff < 8 -> 0 <= fr <= 9 -> 0 <= tf < 8 -> 0 <= tr <= 9 ->
  parse_squares (square_name ff fr ++ rest) (square_name tf tr ++ rest')
  = Ok (ff, fr, tf, tr).
Proof.
  intros Hff Hfr Htf Htr.
  destruct (square_name_read ff fr Hff Hfr) as (l1 & d1 & -> & Hi1 & Hr1).
  destruct (square_name_read tf tr Htf Htr) as (l2 & d2 & -> & Hi2 & Hr2).
  unfold parse_squares. cbn [app].
  rewrite !getitem_pair_0, !getitem_pair_1. cbn [bind].
  rewrite Hi1. cbn [bind]. rewrite Hr1. cbn [bind].
  rewrite Hi2. cbn [bind]. rewrite Hr2. reflexivity.
Qed.

(** X7.  The square texts that [find_pieces] writes are read back by
    [can_bishop_move_to] as the same column and rank; and the squares it
    accepts are exactly the strings that begin with a file letter [a]..[h]
    and a decimal digit (0 and 9 included): whatever follows these two
    characters is ignored. *)
Theorem parse_squares_accepts from_square to_square ff fr tf tr :
  parse_squares from_square to_square = Ok (ff, fr, tf, tr) <->
  (0 <= ff < 8 /\ 0 <= fr <= 9 /\ 0 <= tf < 8 /\ 0 <= tr <= 9)
  /\ exists rest rest',
       from_square = square_name ff fr ++ rest
       /\ to_square = square_name tf tr ++ rest'.
Proof.
  split.
  - unfold parse_squares.
    destruct (getitem from_square 0) as [c0|] eqn:E0; [|discriminate].
    cbn [bind].
    destruct (index files c0) as [i|] eqn:Ei; [|discriminate]. cbn [bind].
    destruct (getitem from_square 1) as [c1|] eqn:E1; [|discriminate].
    cbn [bind].
    destruct (int_of_char c1) as [r1|] eqn:Er1; [|discriminate]. cbn [bind].
    destruct (getitem to_square 0) as [c2|] eqn:E2; [|discriminate].
    cbn [bind].
    destruct (index files c2) as [j|] eqn:Ej; [|discriminate]. cbn [bind].
    destruct (getitem to_square 1) as [c3|] eqn:E3; [|discriminate].
    cbn [bind].
    destruct (int_of_char c3) as [r3|] eqn:Er3; [|discriminate]. cbn [bind].
    intro H. apply Ok_inj in H. injection H as <- <- <- <-.
    destruct (parse_one_square _ _ _ _ _ E0 Ei E1 Er1) as (H1 & H2 & rest & ->).
    destruct (parse_one_square _ _ _ _ _ E2 Ej E3 Er3) as (H3 & H4 & rest' & ->).
    split; [tauto|]. now exists rest, rest'.
  - intros ((Hff & Hfr & Htf & Htr) & rest & rest' & -> & ->).
    now apply parse_squares_names.
Qed.

(** The answer of the check on a well-formed board. *)
Lemma bishop_decision b from_square to_square color ff fr tf tr :
  wf_board b = true ->
  parse_squares from_square to_square = Ok (ff, fr, tf, tr) ->
  1 <= fr <= 8 -> 1 <= tr <= 8 ->
  exists can reason,
    can_bishop_move_to b from_square to_square color = Some (Ok (can, reason))
    /\ (can = true <->
        diagonal ff fr tf tr /\ path_clear b ff fr tf tr
        /\ own_piece color (occupant b (tf, tr)) = false).
Proof.
  intros Hwf Hparse Hfr Htr.
  destruct (diagonal_dec ff fr tf tr) as [Hd | Hnd].
  - destruct (clear_or_blocked b ff fr tf tr) as [Hclear | (k & Hk)].
    + rewrite (way_clear b from_square to_square color ff fr tf tr)
        by assumption.
      destruct (own_piece color (occupant b (tf, tr))); do 2 eexists;
        (split; [reflexivity|]); split; try tauto; try discriminate.
      intros (_ & _ & H). discriminate.
    + rewrite (way_blocked b from_square to_square color ff fr tf tr
                 Hwf Hparse Hfr Htr k Hd Hk).
      do 2 eexists. split; [reflexivity|].
      split; [discriminate|]. intros (_ & Hclear & _).
      now apply blocker_not_clear in Hk.
  - rewrite (way_not_diagonal b from_square to_square color ff fr tf tr)
      by assumption.
    do 2 eexists. split; [reflexivity|].
    split; [discriminate | tauto].
Qed.

(** X8.  On a board of eight rows of eight cells and for two squares of
    the board, [can_bishop_move_to] raises nothing, and it answers [True]
    exactly when the squares lie on a common diagonal, every square strictly
    between them is empty, and the destination does not hold a piece of the
    mover's colour.  It never approves a move off a diagonal or over a
    piece. *)
Theorem bishop_answer_exact b from_square to_square color ff fr tf tr :
  wf_board b = true ->
  parse_squares from_square to_square = Ok (ff, fr, tf, tr) ->
  1 <= fr <= 8 -> 1 <= tr <= 8 ->
  exists can reason,
    can_bishop_move_to b from_square to_square color = Some (Ok (can, reason))
    /\ (can = true <->
        diagonal ff fr tf tr /\ path_clear b ff fr tf tr
        /\ own_piece color (occupant b (tf, tr)) = false).
Proof. apply bishop_decision. Qed.

Lemma bishop_answer_exact_witness :
  exists can reason,
    can_bishop_move_to
      (map str ["rnbqkbnr"; "pppp.ppp"; "........"; "....p...";
                "....P..."; "........"; "PPPP.PPP"; "RNBQKBNR"]%string)
      (str "f1") (str "c4") (str "white")
    = Some (Ok (can, reason))
    /\ (can = true <->
        diagonal 5 1 2 4
        /\ path_clear
             (map str ["rnbqkbnr"; "pppp.ppp"; "........"; "....p...";
                       "....P..."; "........"; "PPPP.PPP"; "RNBQKBNR"]%string)
             5 1 2 4
        /\ own_piece (str "white")
             (occupant
                (map str ["rnbqkbnr"; "pppp.ppp"; "........"; "....p...";
                          "....P..."; "........"; "PPPP.PPP";
                          "RNBQKBNR"]%string)
                (2, 4)) = false).
Proof.
  apply (bishop_answer_exact
           (map str ["rnbqkbnr"; "pppp.ppp"; "........"; "....p...";
                     "....P..."; "........"; "PPPP.PPP"; "RNBQKBNR"]%string)
           (str "f1") (str "c4") (str "white") 5 1 2 4);
    try reflexivity; lia.
Defined.

(** X9.  Every square that [find_pieces] returns on a board of eight rows
    of eight cells can be handed to [can_bishop_move_to] as the origin: it is
    read back as the square where the piece was found, nothing is raised, and
    the answer for a destination on the board is [True] exactly when the
    destination is on a diagonal of that square, the way is clear and the
    destination is not held by the mover's own piece. *)
Theorem found_square_checked b piece positions pos color tf tr :
  wf_board b = true ->
  find_pieces b piece = Ok positions ->
  In pos positions ->
  0 <= tf < 8 -> 1 <= tr <= 8 ->
  exists ff fr can reason,
    0 <= ff < 8 /\ 1 <= fr <= 8
    /\ [occupant b (ff, fr)] = piece
    /\ parse_squares pos (square_name tf tr) = Ok (ff, fr, tf, tr)
    /\ can_bishop_move_to b pos (square_name tf tr) color
       = Some (Ok (can, reason))
    /\ (can = true <->
        diagonal ff fr tf tr /\ path_clear b ff fr tf tr
        /\ own_piece color (occupant b (tf, tr)) = false).
Proof.
  intros Hwf Hfind Hin Htf Htr.
  destruct (find_pieces_wf b piece Hwf) as (ps & Hps & Hsound & _).
  rewrite Hfind in Hps. apply Ok_inj in Hps. subst ps.
  destruct (Hsound pos Hin) as (ff & fr & Hff & Hfr & -> & Hocc).
  assert (Hparse : parse_squares (square_name ff fr) (square_name tf tr)
                   = Ok (ff, fr, tf, tr)).
  { rewrite <- (app_nil_r (square_name ff fr)).
    rewrite <- (app_nil_r (square_name tf tr)).
    apply parse_squares_names; lia. }
  destruct (bishop_decision b _ _ color ff fr tf tr Hwf Hparse Hfr Htr)
    as (can & reason & Hres & Hiff).
  exists ff, fr, can, reason. auto 10.
Qed.

Lemma found_square_checked_witness :
  exists ff fr can reason,
    0 <= ff < 8 /\ 1 <= fr <= 8
    /\ [occupant
          (map str ["rnbqkbnr"; "pppp.ppp"; "........"; "....p...";
                    "....P..."; "........"; "PPPP.PPP"; "RN.QKBNR"]%string)
          (ff, fr)] = str "B"
    /\ parse_squares (str "f1") (square_name 4 2) = Ok (ff, fr, 4, 2)
    /\ can_bishop_move_to
         (map str ["rnbqkbnr"; "pppp.ppp"; "........"; "....p...";
                   "....P..."; "........"; "PPPP.PPP"; "RN.QKBNR"]%string)
         (str "f1") (square_name 4 2) (str "white")
       = Some (Ok (can, reason))
    /\ (can = true <->
        diagonal ff fr 4 2
        /\ path_clear
             (map str ["rnbqkbnr"; "pppp.ppp"; "........"; "....p...";
                       "....P..."; "........"; "PPPP.PPP"; "RN.QKBNR"]%string)
             ff fr 4 2
        /\ own_piece (str "white")
             (occupant
                (map str ["rnbqkbnr"; "pppp.ppp"; "........"; "....p...";
                          "....P..."; "........"; "PPPP.PPP";
                          "RN.QKBNR"]%string)
                (4, 2)) = false).
Proof.
  apply (found_square_checked
           (map str ["rnbqkbnr"; "pppp.ppp"; "........"; "....p...";
                     "....P..."; "........"; "PPPP.PPP"; "RN.QKBNR"]%string)
           (str "B") [str "f1"] (str "f1") (str "white") 4 2).
  - reflexivity.
  - vm_compute. reflexivity.
  - now left.
  - lia.
  - lia.
Defined.

(** X10.  A request between two squares that are not on a common diagonal,
    the request from a square to itself included, is answered [False],
    ["Not a diagonal move"], before any cell is read: on every board, an
    empty or ragged one too, and for the rank digits 0 and 9. *)
Theorem not_diagonal_on_any_board b from_square to_square color ff fr tf tr :
  parse_squares from_square to_square = Ok (ff, fr, tf, tr) ->
  ~ diagonal ff fr tf tr ->
  can_bishop_move_to b from_square to_square color
  = Some (Ok (false, str "Not a diagonal move")).
Proof. apply way_not_diagonal. Qed.

Lemma not_diagonal_on_any_board_witness :
  can_bishop_move_to [] (str "c1") (str "c1") (str "white")
  = Some (Ok (false, str "Not a diagonal move")).
Proof.
  apply (not_diagonal_on_any_board [] (str "c1") (str "c1") (str "white")
           2 1 2 1).
  - reflexivity.
  - unfold diagonal. lia.
Defined.

Lemma wf_board_length b : wf_board b = true -> List.length b = 8%nat.
Proof.
  unfold wf_board. intro H. apply andb_true_iff in H as [Hl _].
  now apply Nat.eqb_eq in Hl.
Qed.

(** Row [-1] is the last row, row [8] does not exist. *)
Lemma getitem_minus_one {A} (l : list A) d :
  List.length l = 8%nat -> getitem l (-1) = Ok (nth 7 l d).
Proof.
  intro Hlen. unfold getitem. rewrite Hlen.
  change (if -1 <? 0 then -1 + Z.of_nat 8 else -1) with 7.
  change ((0 <=? 7) && (7 <? Z.of_nat 8)) with true. cbv iota.
  change (Z.to_nat 7) with 7%nat.
  now rewrite (nth_error_nth' l d) by lia.
Qed.

Lemma getitem_eight {A} (l : list A) :
  List.length l = 8%nat -> getitem l 8 = Raise IndexError.
Proof. intro Hlen. unfold getitem. now rewrite Hlen. Qed.

Lemma cell_row_minus_one b col :
  wf_board b = true -> 0 <= col < 8 -> cell b (-1) col = Ok (look b 7 col).
Proof.
  intros Hwf Hc. pose proof (wf_board_length b Hwf) as Hlen.
  unfold cell, look. rewrite (getitem_minus_one b [] Hlen). cbn [bind].
  change (Z.to_nat 7) with 7%nat. apply getitem_nth.
  pose proof (wf_board_rows b 7 Hwf ltac:(lia)) as Hrow.
  change (Z.to_nat 7) with 7%nat in Hrow. rewrite Hrow. lia.
Qed.

Lemma cell_row_eight b col :
  wf_board b = true -> cell b 8 col = Raise IndexError.
Proof.
  intros Hwf. pose proof (wf_board_length b Hwf) as Hlen.
  unfold cell. now rewrite (getitem_eight b Hlen).
Qed.

Section PathEdge.

Variables (b : board) (ff fr tf tr : Z).
Hypothesis Hwf : wf_board b = true.
Hypothesis Hff : 0 <= ff < 8.
Hypothesis Htf : 0 <= tf < 8.
Hypothesis Hfr : 1 <= fr <= 8.
Hypothesis Htr : 0 <= tr <= 9.
Hypothesis Hdiag : diagonal ff fr tf tr.

Lemma way_on_board_edge k :
  0 < k < Z.abs (tf - ff) ->
  0 <= fst (on_the_way ff fr tf tr k) < 8
  /\ 0 <= 8 - snd (on_the_way ff fr tf tr k) < 8
  /\ fst (on_the_way ff fr tf tr k) <> tf.
Proof.
  destruct Hdiag as [Hd Hne]. intro Hk. unfold on_the_way. cbn [fst snd].
  assert (Hr : tr <> fr) by lia.
  destruct (sgn_unit ff tf ltac:(lia)) as [E1 | E1];
    destruct (sgn_unit fr tr ltac:(lia)) as [E2 | E2]; rewrite E1, E2; lia.
Qed.

Lemma scan_clear_edge :
  path_clear b ff fr tf tr ->
  scan_path 8 b tf (Z.sgn (tf - ff)) (- Z.sgn (tr - fr))
    (ff + Z.sgn (tf - ff)) (8 - fr + - Z.sgn (tr - fr)) = Some (Ok None).
Proof.
  intro Hclear.
  set (n := Z.to_nat (Z.abs (tf - ff) - 1)).
  assert (Hn : Z.of_nat n = Z.abs (tf - ff) - 1)
    by (destruct Hdiag; unfold n; lia).
  rewrite (scan_path_run b tf (Z.sgn (tf - ff)) (- Z.sgn (tr - fr)) Hwf n 8).
  - replace (8 - n)%nat with (S (7 - n)) by lia.
    replace (ff + Z.sgn (tf - ff) + Z.of_nat n * Z.sgn (tf - ff)) with tf.
    + apply scan_path_stop.
    + rewrite Hn. destruct Hdiag as [_ Hne].
      destruct (sgn_unit ff tf ltac:(lia)) as [E | E]; rewrite E; lia.
  - lia.
  - intros j Hj.
    rewrite (loop_file ff fr tf tr), (loop_row ff fr tf tr).
    destruct (way_on_board_edge (j + 1) ltac:(lia)) as (H1 & H2 & H3).
    repeat split; try lia.
    apply (Hclear (j + 1)). lia.
Qed.

End PathEdge.

(** X11.  The rank digits 0 and 9 are accepted, and the destination row is
    [8 - rank]: on a board of eight rows of eight cells, with the way clear,
    a destination on "rank 9" is judged by the cell on rank 1 of its file
    (row [-1] is the last row), so that the move can be answered [True],
    ["Legal move"]; a destination on "rank 0" raises [IndexError]. *)
Theorem bishop_rank_off_board b from_square to_square color ff fr tf tr :
  wf_board b = true ->
  parse_squares from_square to_square = Ok (ff, fr, tf, tr) ->
  1 <= fr <= 8 ->
  diagonal ff fr tf tr ->
  path_clear b ff fr tf tr ->
  (tr = 9 ->
   can_bishop_move_to b from_square to_square color
   = Some (Ok (if own_piece color (occupant b (tf, 1))
               then (false, str "Destination occupied by own piece")
               else (true, str "Legal move"))))
  /\ (tr = 0 ->
      can_bishop_move_to b from_square to_square color
      = Some (Raise IndexError)).
Proof.
  intros Hwf Hparse Hfr Hd Hclear.
  destruct (parsed_files _ _ _ _ _ _ Hparse) as [Hff Htf].
  assert (Hscan : 0 <= tr <= 9 ->
            can_bishop_move_to b from_square to_square color
            = Some (check_destination b (8 - tr) tf color)).
  { intro Htr. unfold can_bishop_move_to, can_bishop_move_to_fuel.
    rewrite Hparse. cbv beta iota zeta.
    rewrite diagonal_test by assumption.
    pose proof Hd as [Habs Hne].
    rewrite !step_is_sgn by lia.
    now rewrite scan_clear_edge. }
  split; intros ->; rewrite Hscan by lia; unfold check_destination.
  - change (8 - 9) with (-1). rewrite cell_row_minus_one by assumption.
    cbn [bind]. unfold occupant, own_piece. cbn [fst snd].
    change (8 - 1) with 7.
    destruct (Ascii.eqb (look b 7 tf) "."); cbn [negb andb]; [reflexivity|].
    destruct (pystr_eqb color (str "white") && isupper _); cbn [orb];
      [reflexivity|].
    now destruct (pystr_eqb color (str "black") && islower _).
  - change (8 - 0) with 8. now rewrite cell_row_eight.
Qed.

Lemma bishop_rank_off_board_witness :
  can_bishop_move_to
    (map str ["rnbqkbnr"; "pppppppp"; "........"; "........";
              "........"; "........"; "PPPPPPPP"; "RNBQKBNR"]%string)
    (str "c8") (str "d9") (str "black")
  = Some (Ok (true, str "Legal move"))
  /\ can_bishop_move_to
       (map str ["rnbqkbnr"; "pppppppp"; "........"; "........";
                 "........"; "........"; "PPPPPPPP"; "RNBQKBNR"]%string)
       (str "c1") (str "d0") (str "white")
     = Some (Raise IndexError).
Proof.
  split.
  - apply (proj1 (bishop_rank_off_board
             (map str ["rnbqkbnr"; "pppppppp"; "........"; "........";
                       "........"; "........"; "PPPPPPPP"; "RNBQKBNR"]%string)
             (str "c8") (str "d9") (str "black") 2 8 3 9
             eq_refl eq_refl ltac:(lia) ltac:(unfold diagonal; lia)
             ltac:(intros k Hk; simpl in Hk; lia))).
    reflexivity.
  - apply (proj2 (bishop_rank_off_board
             (map str ["rnbqkbnr"; "pppppppp"; "........"; "........";
                       "........"; "........"; "PPPPPPPP"; "RNBQKBNR"]%string)
             (str "c1") (str "d0") (str "white") 2 1 3 0
             eq_refl eq_refl ltac:(lia) ltac:(unfold diagonal; lia)
             ltac:(intros k Hk; simpl in Hk; lia))).
    reflexivity.
Defined.

(** * Further properties: the pawn generator *)

(** What a square contributes on a well-formed board. *)
Lemma moves_at_wf b color r f :
  wf_board b = true -> 0 <= r < 8 -> 0 <= f < 8 ->
  let d := direction_of color in
  moves_at b color r f
  = Ok (if Ascii.eqb (look b r f) (pawn_of color) then
          if on_board (r + d) then
            if Ascii.eqb (look b (r + d) f) "." then
              square_name f (8 - (r + d))
              :: (if r =? start_rank_of color then
                    if Ascii.eqb (look b (r + 2 * d) f) "."
                    then [square_name f (8 - (r + 2 * d))] else []
                  else [])
            else []
          else []
        else []).
Proof.
  intros Hwf Hr Hf d. unfold moves_at, pawn_step. fold d.
  rewrite wf_cell by assumption. cbn [bind].
  destruct (Ascii.eqb (look b r f) (pawn_of color)); [|reflexivity].
  rewrite getitem_files by assumption. cbn [bind].
  fold (on_board (r + d)).
  destruct (on_board (r + d)) eqn:Hon; [|reflexivity].
  apply on_board_iff in Hon.
  rewrite wf_cell by assumption. cbn [bind].
  destruct (Ascii.eqb (look b (r + d) f) "."); [|reflexivity].
  unfold square_name.
  destruct (Z.eqb_spec r (start_rank_of color)) as [Hs|_]; [|reflexivity].
  assert (Htwo : 0 <= r + 2 * d < 8).
  { revert Hs Hon. unfold d, start_rank_of, direction_of.
    destruct (pystr_eqb color (str "white")); lia. }
  rewrite wf_cell by assumption. cbn [bind].
  destruct (Ascii.eqb (look b (r + 2 * d) f) "."); reflexivity.
Qed.

Lemma analyze_collect b color :
  analyze_pawn_moves b color = collect64 (moves_at b color).
Proof.
  unfold analyze_pawn_moves.
  apply (collect64_loops
           (pawn_step b (pawn_of color) (direction_of color)
              (start_rank_of color))).
  intros. apply pawn_step_appends.
Qed.

(** The destinations returned, in rows and columns. *)
Lemma analyze_destinations b color :
  wf_board b = true ->
  let d := direction_of color in
  exists all,
    analyze_pawn_moves b color = Ok all
    /\ (forall m, In m all ->
          exists f rank, 0 <= f < 8 /\ 1 <= rank <= 8 /\ m = square_name f rank)
    /\ (forall f rank, 0 <= f < 8 -> 1 <= rank <= 8 ->
          (In (square_name f rank) all <->
           exists r,
             0 <= r < 8 /\ look b r f = pawn_of color
             /\ 0 <= r + d < 8 /\ look b (r + d) f = "."%char
             /\ (rank = 8 - (r + d)
                 \/ (r = start_rank_of color
                     /\ look b (r + 2 * d) f = "."%char
                     /\ rank = 8 - (r + 2 * d))))).
Proof.
  intros Hwf d. rewrite analyze_collect.
  destruct (collect64_total _ (moves_at b color)) as (all & Hall).
  { intros r f Hr Hf. rewrite moves_at_wf by assumption. eexists. reflexivity. }
  exists all. split; [assumption|].
  assert (Hstart : forall r, r = start_rank_of color ->
            1 <= 8 - (r + 2 * d) <= 8).
  { intros r ->. unfold d, start_rank_of, direction_of.
    destruct (pystr_eqb color (str "white")); lia. }
  assert (Hin : forall m r f ms,
            0 <= r < 8 -> 0 <= f < 8 ->
            moves_at b color r f = Ok ms -> In m ms ->
            look b r f = pawn_of color
            /\ 0 <= r + d < 8 /\ look b (r + d) f = "."%char
            /\ (m = square_name f (8 - (r + d))
                \/ (r = start_rank_of color
                    /\ look b (r + 2 * d) f = "."%char
                    /\ m = square_name f (8 - (r + 2 * d))))).
  { intros m r f ms Hr Hf Hms Hm.
    rewrite moves_at_wf in Hms by assumption. fold d in Hms.
    apply Ok_inj in Hms. subst ms.
    destruct (Ascii.eqb_spec (look b r f) (pawn_of color)) as [Hp|_];
      [|contradiction].
    destruct (on_board (r + d)) eqn:Hon; [|contradiction].
    apply on_board_iff in Hon.
    destruct (Ascii.eqb_spec (look b (r + d) f) ".") as [H1|_];
      [|contradiction].
    do 3 (split; [assumption|]).
    destruct Hm as [<- | Hm]; [now left|].
    destruct (Z.eqb_spec r (start_rank_of color)) as [Hs|_]; [|contradiction].
    destruct (Ascii.eqb_spec (look b (r + 2 * d) f) ".") as [H2|_];
      [|contradiction].
    destruct Hm as [<- | Hm]; [|contradiction]. right. auto. }
  split.
  - intros m Hm.
    destruct (collect64_in _ _ _ _ Hall Hm) as (r & f & ms & Hr & Hf & Hms & Hmm).
    destruct (Hin m r f ms Hr Hf Hms Hmm) as (_ & Hon & _ & [-> | (Hs & _ & ->)]).
    + exists f, (8 - (r + d)). repeat split; lia.
    + exists f, (8 - (r + 2 * d)). pose proof (Hstart r Hs). repeat split; lia.
  - intros f rank Hf Hrank. split.
    + intro Hm.
      destruct (collect64_in _ _ _ _ Hall Hm)
        as (r & f' & ms & Hr & Hf' & Hms & Hmm).
      destruct (Hin _ r f' ms Hr Hf' Hms Hmm)
        as (Hp & Hon & H1 & [E | (Hs & H2 & E)]).
      * apply square_name_inj in E as [-> ->]; try lia.
        exists r. auto 10.
      * pose proof (Hstart r Hs).
        apply square_name_inj in E as [-> ->]; try lia.
        exists r. auto 10.
    + intros (r & Hr & Hp & Hon & H1 & Hcase).
      destruct (collect64_incl _ _ _ r f Hall Hr Hf) as (ms & Hms & Hincl).
      apply Hincl. rewrite moves_at_wf in Hms by assumption. fold d in Hms.
      apply Ok_inj in Hms. subst ms.
      rewrite Hp, Ascii.eqb_refl.
      replace (on_board (r + d)) with true
        by (symmetry; now apply on_board_iff).
      rewrite H1. change (Ascii.eqb "." ".") with true. cbv iota.
      destruct Hcase as [-> | (Hs & H2 & ->)]; [now left|].
      right. rewrite <- Hs, Z.eqb_refl, H2.
      change (Ascii.eqb "." ".") with true. cbv iota. now left.
Qed.

(** X12.  On a board of eight rows of eight cells the generator returns
    square names only, and the name of a square is in White's list exactly
    when the square is empty and either a white pawn stands directly below it
    or the square is on rank 4, the square on rank 3 of its file is empty
    and a white pawn stands on rank 2 of the file.  For any colour other than
    ['white'] the same holds downwards: the square is empty and a black pawn
    stands directly above it, or the square is on rank 5, rank 6 of the file
    is empty and a black pawn stands on rank 7. *)
Theorem pawn_destinations_exact b :
  wf_board b = true ->
  (exists all,
     analyze_pawn_moves b (str "white") = Ok all
     /\ (forall m, In m all ->
           exists f rank,
             0 <= f < 8 /\ 1 <= rank <= 8 /\ m = square_name f rank)
     /\ (forall f rank, 0 <= f < 8 -> 1 <= rank <= 8 ->
           (In (square_name f rank) all <->
            occupant b (f, rank) = "."%char
            /\ ((2 <= rank /\ occupant b (f, rank - 1) = "P"%char)
                \/ (rank = 4 /\ occupant b (f, 3) = "."%char
                    /\ occupant b (f, 2) = "P"%char)))))
  /\ (forall color, color <> str "white" ->
      exists all,
        analyze_pawn_moves b color = Ok all
        /\ (forall m, In m all ->
              exists f rank,
                0 <= f < 8 /\ 1 <= rank <= 8 /\ m = square_name f rank)
        /\ (forall f rank, 0 <= f < 8 -> 1 <= rank <= 8 ->
              (In (square_name f rank) all <->
               occupant b (f, rank) = "."%char
               /\ ((rank <= 7 /\ occupant b (f, rank + 1) = "p"%char)
                   \/ (rank = 5 /\ occupant b (f, 6) = "."%char
                       /\ occupant b (f, 7) = "p"%char))))).
Proof.
  intro Hwf. split.
  - destruct (analyze_destinations b (str "white") Hwf)
      as (all & Hall & Hnames & Hiff).
    exists all. split; [assumption|]. split; [assumption|].
    intros f rank Hf Hrank. rewrite (Hiff f rank Hf Hrank).
    change (direction_of (str "white")) with (-1).
    change (start_rank_of (str "white")) with 6.
    change (pawn_of (str "white")) with "P"%char.
    unfold occupant. cbn [fst snd]. split.
    + intros (r & Hr & Hp & Hon & H1 & [-> | (-> & H2 & ->)]).
      * replace (8 - (8 - (r + -1))) with (r + -1) by lia.
        split; [assumption|]. left. split; [lia|].
        now replace (8 - (8 - (r + -1) - 1)) with r by lia.
      * split; [exact H2|]. right. repeat split; assumption.
    + intros (H0 & [(H2 & Hp) | (-> & H3 & Hp)]).
      * exists (8 - (rank - 1)). split; [lia|]. split; [assumption|].
        replace (8 - (rank - 1) + -1) with (8 - rank) by lia.
        split; [lia|]. split; [assumption|]. left. lia.
      * exists 6. split; [lia|]. split; [exact Hp|]. split; [lia|].
        split; [exact H3|]. right. repeat split. exact H0.
  - intros color Hc.
    assert (Hb : pystr_eqb color (str "white") = false).
    { destruct (pystr_eqb color (str "white")) eqn:E; [|reflexivity].
      apply pystr_eqb_eq in E. contradiction. }
    destruct (analyze_destinations b color Hwf) as (all & Hall & Hnames & Hiff).
    exists all. split; [assumption|]. split; [assumption|].
    intros f rank Hf Hrank. rewrite (Hiff f rank Hf Hrank).
    unfold direction_of, start_rank_of, pawn_of. rewrite Hb.
    unfold occupant. cbn [fst snd]. split.
    + intros (r & Hr & Hp & Hon & H1 & [-> | (-> & H2 & ->)]).
      * replace (8 - (8 - (r + 1))) with (r + 1) by lia.
        split; [assumption|]. left. split; [lia|].
        now replace (8 - (8 - (r + 1) + 1)) with r by lia.
      * split; [exact H2|]. right. repeat split; assumption.
    + intros (H0 & [(H2 & Hp) | (-> & H3 & Hp)]).
      * exists (8 - (rank + 1)). split; [lia|]. split; [assumption|].
        replace (8 - (rank + 1) + 1) with (8 - rank) by lia.
        split; [lia|]. split; [assumption|]. left. lia.
      * exists 1. split; [lia|]. split; [exact Hp|]. split; [lia|].
        split; [exact H3|]. right. repeat split. exact H0.
Qed.

Lemma pawn_destinations_exact_witness :
  exists all,
    analyze_pawn_moves
      (map str ["rnbqkbnr"; "pppp.ppp"; "........"; "....p...";
                "........"; "P......."; ".PPPPPPP"; "RNBQKBNR"]%string)
      (str "white") = Ok all
    /\ (forall m, In m all ->
          exists f rank,
            0 <= f < 8 /\ 1 <= rank <= 8 /\ m = square_name f rank)
    /\ (forall f rank, 0 <= f < 8 -> 1 <= rank <= 8 ->
          (In (square_name f rank) all <->
           occupant
             (map str ["rnbqkbnr"; "pppp.ppp"; "........"; "....p...";
                       "........"; "P......."; ".PPPPPPP"; "RNBQKBNR"]%string)
             (f, rank) = "."%char
           /\ ((2 <= rank
                /\ occupant
                     (map str ["rnbqkbnr"; "pppp.ppp"; "........"; "....p...";
                               "........"; "P......."; ".PPPPPPP";
                               "RNBQKBNR"]%string)
                     (f, rank - 1) = "P"%char)
               \/ (rank = 4
                   /\ occupant
                        (map str ["rnbqkbnr"; "pppp.ppp"; "........";
                                  "....p..."; "........"; "P.......";
                                  ".PPPPPPP"; "RNBQKBNR"]%string)
                        (f, 3) = "."%char
                   /\ occupant
                        (map str ["rnbqkbnr"; "pppp.ppp"; "........";
                                  "....p..."; "........"; "P.......";
                                  ".PPPPPPP"; "RNBQKBNR"]%string)
                        (f, 2) = "P"%char)))).
Proof.
  exact (proj1 (pawn_destinations_exact
                  (map str ["rnbqkbnr"; "pppp.ppp"; "........"; "....p...";
                            "........"; "P......."; ".PPPPPPP";
                            "RNBQKBNR"]%string)
                  eq_refl)).
Defined.

(** * Further properties: the validator's other paths *)



(** X14.  Where the validator raises on six fields.  A superscript digit
    in the placement raises [ValueError] whatever the en-passant field is.
    With a placement that parses, an en-passant field of one character other
    than ['-'] raises [IndexError], and a field whose second character is not
    a decimal digit raises [ValueError]; in both cases before the side to
    move or the board is looked at. *)
Theorem validate_raises_on s bp ac ca ep hm fm :
  split s = [bp; ac; ca; ep; hm; fm] ->
  (existsb superscript bp = true -> validate_en_passant s = Raise ValueError)
  /\ (existsb superscript bp = false ->
      (forall c, ep = [c] -> c <> "-"%char ->
         validate_en_passant s = Raise IndexError)
      /\ (forall c0 c1 rest, ep = c0 :: c1 :: rest ->
            in_range 48 57 c1 = false ->
            validate_en_passant s = Raise ValueError)).
Proof.
  intros Es. rewrite (validate_six _ _ _ _ _ _ _ Es). unfold validate_fields.
  split; [|split].
  - intro Hbp. now rewrite (proj2 (parse_board_cases bp) Hbp).
  - intros c -> Hc.
    destruct (proj1 (parse_board_cases bp) H) as (b & ->). cbn [bind].
    assert (Hd : pystr_eqb [c] (str "-") = false).
    { destruct (pystr_eqb [c] (str "-")) eqn:E; [|reflexivity].
      apply pystr_eqb_eq in E. injection E as ->. contradiction. }
    rewrite Hd. cbn [negb]. cbv iota.
    unfold check_en_passant.
    change 0 with (Z.of_nat 0). change 1 with (Z.of_nat 1).
    rewrite !getitem_nat. reflexivity.
  - intros c0 c1 rest -> Hc1.
    destruct (proj1 (parse_board_cases bp) H) as (b & ->). cbn [bind].
    assert (Hd : pystr_eqb (c0 :: c1 :: rest) (str "-") = false).
    { unfold str. cbn [list_ascii_of_string pystr_eqb]. apply andb_false_r. }
    rewrite Hd. cbn [negb]. cbv iota.
    unfold check_en_passant.
    rewrite getitem_pair_0, getitem_pair_1. cbn [bind].
    unfold int_of_char. rewrite Hc1. reflexivity.
Qed.

Lemma validate_raises_on_witness :
  validate_en_passant ("179"%char :: str "/8 w - - 0 1") = Raise ValueError
  /\ validate_en_passant (str "8/8/8/8/8/8/8/8 b - e 0 1") = Raise IndexError
  /\ validate_en_passant (str "8/8/8/8/8/8/8/8 b - e? 0 1") = Raise ValueError.
Proof.
  split; [|split].
  - exact (proj1 (validate_raises_on ("179"%char :: str "/8 w - - 0 1")
                    ("179"%char :: str "/8") (str "w") (str "-") (str "-")
                    (str "0") (str "1") eq_refl) eq_refl).
  - exact (proj1 (proj2 (validate_raises_on (str "8/8/8/8/8/8/8/8 b - e 0 1")
                           (str "8/8/8/8/8/8/8/8") (str "b") (str "-")
                           (str "e") (str "0") (str "1") eq_refl) eq_refl)
             "e"%char eq_refl ltac:(discriminate)).
  - exact (proj2 (proj2 (validate_raises_on (str "8/8/8/8/8/8/8/8 b - e? 0 1")
                           (str "8/8/8/8/8/8/8/8") (str "b") (str "-")
                           (str "e?") (str "0") (str "1") eq_refl) eq_refl)
             "e"%char "?"%char [] eq_refl eq_refl).
Defined.

Lemma check_branch_off_file b row mover capturer file_idx :
  on_board file_idx = false ->
  check_branch b row mover capturer file_idx false = Ok false.
Proof. unfold check_branch. fold (on_board file_idx). now intros ->. Qed.

Lemma rank_test_false c n d :
  ord d = n + 48 -> c <> d -> (ord c - 48 =? n) = false.
Proof.
  intros Hd Hne. apply Z.eqb_neq. intro E. apply Hne. apply ord_inj. lia.
Qed.

(** X15.  A target that cannot be kept is dropped without a look at the
    board.  With a placement that parses, an en-passant field whose second
    character is a decimal digit other than the one the side to move calls
    for (6 for ['w'], 3 otherwise), or whose first character is not a file
    letter [a]..[h], is replaced by ['-'], on boards of any shape. *)
Theorem hopeless_target_dropped s bp ac ca c0 c1 rest hm fm :
  split s = [bp; ac; ca; c0 :: c1 :: rest; hm; fm] ->
  existsb superscript bp = false ->
  in_range 48 57 c1 = true ->
  c1 <> rank_digit ac \/ in_range 97 104 c0 = false ->
  validate_en_passant s = Ok (join6 bp ac ca (str "-") hm fm).
Proof.
  intros Es Hbp Hc1 Hbad. rewrite (validate_six _ _ _ _ _ _ _ Es).
  unfold validate_fields.
  destruct (proj1 (parse_board_cases bp) Hbp) as (b & ->). cbn [bind].
  assert (Hd : pystr_eqb (c0 :: c1 :: rest) (str "-") = false).
  { unfold str. cbn [list_ascii_of_string pystr_eqb]. apply andb_false_r. }
  rewrite Hd. cbn [negb]. cbv iota.
  assert (Hfile : in_range 97 104 c0 = false ->
            on_board (ord c0 - ord "a"%char) = false).
  { change (ord "a"%char) with 97. unfold in_range, on_board. intro H.
    apply andb_false_iff in H as [H | H]; apply Z.leb_gt in H.
    - replace (0 <=? ord c0 - 97) with false
        by (symmetry; apply Z.leb_gt; lia).
      reflexivity.
    - replace (ord c0 - 97 <? 8) with false
        by (symmetry; apply Z.ltb_ge; lia).
      apply andb_false_r. }
  assert (Hcheck : check_en_passant b ac (c0 :: c1 :: rest) = Ok (str "-")).
  { unfold check_en_passant.
    rewrite getitem_pair_0, getitem_pair_1. cbn [bind].
    unfold int_of_char. rewrite Hc1. cbn [bind].
    unfold rank_digit in Hbad.
    destruct (pystr_eqb ac (str "w")).
    - change (pystr_eqb (str "black") (str "white")) with false.
      change (pystr_eqb (str "black") (str "black")) with true.
      cbn [andb].
      destruct Hbad as [Hne | Hoff].
      + now rewrite (rank_test_false c1 6 "6"%char eq_refl Hne).
      + rewrite (check_branch_off_file _ _ _ _ _ (Hfile Hoff)).
        now destruct (ord c1 - 48 =? 6).
    - change (pystr_eqb (str "white") (str "white")) with true.
      change (pystr_eqb (str "white") (str "black")) with false.
      cbn [andb].
      destruct Hbad as [Hne | Hoff].
      + now rewrite (rank_test_false c1 3 "3"%char eq_refl Hne).
      + rewrite (check_branch_off_file _ _ _ _ _ (Hfile Hoff)).
        now destruct (ord c1 - 48 =? 3). }
  now rewrite Hcheck.
Qed.

Lemma hopeless_target_dropped_witness :
  validate_en_passant (str "8/8 w KQkq e3 0 1") = Ok (str "8/8 w KQkq - 0 1").
Proof.
  apply (hopeless_target_dropped (str "8/8 w KQkq e3 0 1")
           (str "8/8") (str "w") (str "KQkq") "e"%char "3"%char []
           (str "0") (str "1")); try reflexivity.
  left. discriminate.
Defined.

(** * Further properties: the bishop scenarios *)

Lemma try_bishops_spec b bishops dest color :
  (forall pos, In pos bishops ->
     exists can reason,
       can_bishop_move_to b pos dest color = Some (Ok (can, reason))) ->
  exists v,
    try_bishops b bishops dest color false = Some (Ok v)
    /\ (v = true <->
        exists pos reason,
          In pos bishops
          /\ can_bishop_move_to b pos dest color = Some (Ok (true, reason))).
Proof.
  induction bishops as [|pos bishops IH]; intro Hall; cbn [try_bishops].
  - exists false. split; [reflexivity|].
    split; [discriminate | intros (p & r & [] & _)].
  - destruct (Hall pos (or_introl eq_refl)) as ([|] & reason & Hres);
      rewrite Hres.
    + exists true. split; [reflexivity|]. split; [|reflexivity].
      intros _. exists pos, reason. split; [now left | assumption].
    + destruct IH as (v & Hv & Hiff).
      { intros p Hp. apply Hall. now right. }
      exists v. split; [assumption|]. rewrite Hiff. split.
      * intros (p & r & Hp & Hr). exists p, r. split; [now right | assumption].
      * intros (p & r & [<- | Hp] & Hr).
        -- rewrite Hres in Hr. discriminate.
        -- now exists p, r.
Qed.

Lemma scenario_steps fen move bp ac rest b positions :
  split fen = bp :: ac :: rest ->
  parse_board bp = Ok b ->
  wf_board b = true ->
  find_pieces b (if pystr_eqb ac (str "w") then str "B" else str "b")
  = Ok positions ->
  scenario_valid_move fen move
  = try_bishops b positions (last_two move)
      (if pystr_eqb ac (str "w") then str "white" else str "black") false.
Proof.
  intros Es Eb Hwf Hfind. unfold scenario_valid_move, parse_fen_to_board.
  rewrite Es, getitem_pair_0, getitem_pair_1. cbn [bind]. rewrite Eb.
  cbn [bind].
  pose proof (wf_board_length b Hwf) as Hlen.
  assert (Hchar :
            (if pystr_eqb
                  (if pystr_eqb ac (str "w") then str "white" else str "black")
                  (str "white")
             then str "B" else str "b")
            = (if pystr_eqb ac (str "w") then str "B" else str "b"))
    by (now destruct (pystr_eqb ac (str "w"))).
  rewrite Hchar, Hfind. cbn [bind].
  rewrite (getitem_nth b 6 []) by lia. cbn [bind].
  rewrite (getitem_nth b 7 []) by lia. reflexivity.
Qed.

(** X16.  What a bishop scenario computes.  For a state string with at
    least two fields whose placement decodes to eight rows of eight cells,
    and a move whose last two characters name a square of the board, the
    value of [valid_move] is computed without an exception, and it is [True]
    exactly when some bishop of the side to move (['B'] when the second field
    is ['w'], ['b'] otherwise) stands on a diagonal of the destination with
    every square between them empty, and the destination is not held by a
    piece of that side. *)
Theorem scenario_valid_iff fen move bp ac rest b tf tr :
  split fen = bp :: ac :: rest ->
  parse_board bp = Ok b ->
  wf_board b = true ->
  last_two move = square_name tf tr ->
  0 <= tf < 8 -> 1 <= tr <= 8 ->
  let color := if pystr_eqb ac (str "w") then str "white" else str "black" in
  let bishop := if pystr_eqb ac (str "w") then "B"%char else "b"%char in
  exists valid_move,
    scenario_valid_move fen move = Some (Ok valid_move)
    /\ (valid_move = true <->
        exists ff fr,
          0 <= ff < 8 /\ 1 <= fr <= 8
          /\ occupant b (ff, fr) = bishop
          /\ diagonal ff fr tf tr
          /\ path_clear b ff fr tf tr
          /\ own_piece color (occupant b (tf, tr)) = false).
Proof.
  intros Es Eb Hwf Hdest Htf Htr color bishop.
  set (piece := if pystr_eqb ac (str "w") then str "B" else str "b").
  assert (Hpiece : piece = [bishop])
    by (unfold piece, bishop; now destruct (pystr_eqb ac (str "w"))).
  destruct (find_pieces_wf b piece Hwf) as (positions & Hfind & Hsound & Hcompl).
  rewrite (scenario_steps fen move bp ac rest b positions Es Eb Hwf Hfind).
  rewrite Hdest. fold color.
  assert (Hparse : forall ff fr, 0 <= ff < 8 -> 1 <= fr <= 8 ->
            parse_squares (square_name ff fr) (square_name tf tr)
            = Ok (ff, fr, tf, tr)).
  { intros ff fr Hff Hfr.
    rewrite <- (app_nil_r (square_name ff fr)).
    rewrite <- (app_nil_r (square_name tf tr)).
    apply parse_squares_names; lia. }
  destruct (try_bishops_spec b positions (square_name tf tr) color)
    as (v & Hv & Hiff).
  { intros pos Hpos.
    destruct (Hsound pos Hpos) as (ff & fr & Hff & Hfr & -> & _).
    destruct (bishop_decision b _ _ color ff fr tf tr Hwf
                (Hparse ff fr Hff Hfr) Hfr Htr) as (can & reason & Hres & _).
    now exists can, reason. }
  exists v. split; [assumption|]. rewrite Hiff. split.
  - intros (pos & reason & Hpos & Hres).
    destruct (Hsound pos Hpos) as (ff & fr & Hff & Hfr & -> & Hocc).
    destruct (bishop_decision b _ _ color ff fr tf tr Hwf
                (Hparse ff fr Hff Hfr) Hfr Htr) as (can & reason' & Hres' & Hcan).
    rewrite Hres in Hres'. injection Hres' as <- _.
    exists ff, fr. rewrite Hpiece in Hocc. injection Hocc as Hocc.
    destruct (proj1 Hcan eq_refl) as (Hd & Hc & Ho). auto 10.
  - intros (ff & fr & Hff & Hfr & Hocc & Hd & Hc & Ho).
    destruct (bishop_decision b _ _ color ff fr tf tr Hwf
                (Hparse ff fr Hff Hfr) Hfr Htr) as (can & reason & Hres & Hcan).
    exists (square_name ff fr), reason. split.
    + apply Hcompl; try assumption. now rewrite Hocc, Hpiece.
    + rewrite Hres. replace can with true; [reflexivity|].
      symmetry. apply Hcan. auto.
Qed.

Lemma scenario_valid_iff_witness :
  exists valid_move,
    scenario_valid_move
      (str "rnbqkbnr/pppp1ppp/8/4p3/4P3/8/PPPP1PPP/RNBQKBNR w KQkq - 0 2")
      (str "Be2")
    = Some (Ok valid_move)
    /\ (valid_move = true <->
        exists ff fr,
          0 <= ff < 8 /\ 1 <= fr <= 8
          /\ occupant
               (map str ["rnbqkbnr"; "pppp.ppp"; "........"; "....p...";
                         "....P..."; "........"; "PPPP.PPP";
                         "RNBQKBNR"]%string)
               (ff, fr) = "B"%char
          /\ diagonal ff fr 4 2
          /\ path_clear
               (map str ["rnbqkbnr"; "pppp.ppp"; "........"; "....p...";
                         "....P..."; "........"; "PPPP.PPP";
                         "RNBQKBNR"]%string)
               ff fr 4 2
          /\ own_piece (str "white")
               (occupant
                  (map str ["rnbqkbnr"; "pppp.ppp"; "........"; "....p...";
                            "....P..."; "........"; "PPPP.PPP";
                            "RNBQKBNR"]%string)
                  (4, 2)) = false).
Proof.
  apply (scenario_valid_iff
           (str "rnbqkbnr/pppp1ppp/8/4p3/4P3/8/PPPP1PPP/RNBQKBNR w KQkq - 0 2")
           (str "Be2")
           (str "rnbqkbnr/pppp1ppp/8/4p3/4P3/8/PPPP1PPP/RNBQKBNR")
           (str "w") [str "KQkq"; str "-"; str "0"; str "2"]
           (map str ["rnbqkbnr"; "pppp.ppp"; "........"; "....p...";
                     "....P..."; "........"; "PPPP.PPP"; "RNBQKBNR"]%string)
           4 2); try reflexivity; lia.
Defined.

(** Three of the scenarios of the script.  The last one is listed there as
    not valid; the bishop on c4 reaches e2 over the empty square d3. *)
Example scenario_be2 :
  scenario_valid_move
    (str "rnbqkbnr/pppp1ppp/8/4p3/4P3/8/PPPP1PPP/RNBQKBNR w KQkq - 0 2")
    (str "Be2") = Some (Ok true)
  /\ scenario_valid_move
       (str "rnbqkbnr/pppppppp/8/8/8/8/PPPPPPPP/RNBQKBNR w KQkq - 0 1")
       (str "Be2") = Some (Ok false)
  /\ scenario_valid_move
       (str "rnbqkbnr/pppp1ppp/8/4p3/2B1P3/5N2/PPPP1PPP/RNBQK2R w KQkq - 0 4")
       (str "Be2") = Some (Ok true).
Proof. repeat split; vm_compute; reflexivity. Qed.

(** * Further properties: the rows shown *)

Lemma spaced_app a b : spaced (a ++ b) = spaced a ++ spaced b.
Proof. unfold spaced. apply flat_map_app. Qed.

Lemma spaced_repeat n : spaced (repeat "."%char n) = str_mul (str ". ") n.
Proof. induction n as [|n IH]; [reflexivity|]. cbn. now rewrite <- IH. Qed.

Lemma parse_rank_appends rank : forall row,
  parse_rank row rank = (cells <- parse_rank [] rank ;; Ok (row ++ cells)).
Proof.
  induction rank as [|c rank IH]; intro row; cbn [parse_rank].
  - cbn [bind]. now rewrite app_nil_r.
  - destruct (isdigit c).
    + destruct (int_of_char c) as [n|e]; cbn [bind]; [|reflexivity].
      rewrite (IH (row ++ _)), (IH ([] ++ _)).
      destruct (parse_rank [] rank); cbn [bind app]; [|reflexivity].
      now rewrite app_assoc.
    + rewrite (IH (row ++ _)), (IH ([] ++ _)).
      destruct (parse_rank [] rank); cbn [bind app]; [|reflexivity].
      now rewrite <- app_assoc.
Qed.

Lemma display_rank_cells rank : forall row,
  display_rank row rank
  = (cells <- parse_rank [] rank ;; Ok (row ++ spaced cells)).
Proof.
  induction rank as [|c rank IH]; intro row; cbn [display_rank parse_rank].
  - cbn [bind]. now rewrite app_nil_r.
  - destruct (isdigit c).
    + destruct (int_of_char c) as [n|e]; cbn [bind]; [|reflexivity].
      rewrite IH, (parse_rank_appends rank ([] ++ _)).
      destruct (parse_rank [] rank); cbn [bind app]; [|reflexivity].
      now rewrite spaced_app, spaced_repeat, app_assoc.
    + rewrite IH, (parse_rank_appends rank ([] ++ _)).
      destruct (parse_rank [] rank); cbn [bind app]; [|reflexivity].
      now rewrite <- app_assoc.
Qed.

Lemma parse_ranks_appends ranks : forall b,
  parse_ranks b ranks = (rows <- parse_ranks [] ranks ;; Ok (b ++ rows)).
Proof.
  induction ranks as [|rank ranks IH]; intro b; cbn [parse_ranks].
  - cbn [bind]. now rewrite app_nil_r.
  - destruct (parse_rank [] rank) as [row|e]; cbn [bind]; [|reflexivity].
    rewrite (IH (b ++ _)), (IH ([] ++ _)).
    destruct (parse_ranks [] ranks); cbn [bind app]; [|reflexivity].
    now rewrite <- app_assoc.
Qed.

Lemma display_ranks_rows ranks : forall i shown,
  display_ranks i shown ranks
  = (rows <- parse_ranks [] ranks ;; Ok (shown ++ shown_rows i rows)).
Proof.
  induction ranks as [|rank ranks IH]; intros i shown;
    cbn [display_ranks parse_ranks].
  - cbn [bind shown_rows]. now rewrite app_nil_r.
  - rewrite display_rank_cells.
    destruct (parse_rank [] rank) as [cells|e]; cbn [bind]; [|reflexivity].
    rewrite IH, (parse_ranks_appends ranks ([] ++ _)).
    destruct (parse_ranks [] ranks); cbn [bind app shown_rows]; [|reflexivity].
    now rewrite <- !app_assoc.
Qed.

(** X17.  The rows that [display_position] shows are those of the parsed
    board.  For a state string with at least two fields it fails exactly as
    the parser fails on the placement, and otherwise shows one row for each
    row of the board: the numbers 8, 7, ... in turn, a space, and every cell
    followed by a space.  With fewer than two fields it raises
    [IndexError]. *)
Theorem display_shows_parsed_board fen :
  (forall bp ac rest, split fen = bp :: ac :: rest ->
     display_position fen = (b <- parse_board bp ;; Ok (shown_rows 0 b)))
  /\ ((List.length (split fen) < 2)%nat ->
      display_position fen = Raise IndexError).
Proof.
  unfold display_position. split.
  - intros bp ac rest ->. rewrite getitem_pair_0, getitem_pair_1. cbn [bind].
    unfold parse_board. apply display_ranks_rows.
  - change 0 with (Z.of_nat 0). change 1 with (Z.of_nat 1).
    rewrite !getitem_nat.
    destruct (split fen) as [|a [|b l]]; cbn [List.length nth_error bind];
      intro H; try reflexivity; lia.
Qed.

Lemma display_shows_parsed_board_witness :
  display_position (str "r3k2r/8 w")
  = Ok [str "8 r . . . k . . r "; str "7 . . . . . . . . "]
  /\ display_position (str "r3k2r/8") = Raise IndexError.
Proof.
  split.
  - exact (proj1 (display_shows_parsed_board (str "r3k2r/8 w"))
             (str "r3k2r/8") (str "w") [] eq_refl).
  - apply (proj2 (display_shows_parsed_board (str "r3k2r/8"))).
    vm_compute. lia.
Defined.

(** * Further properties: from the state string to the pawn moves *)


